(** * WebContentAnalyzer: the text-analysis core of [src/main.py]

    A shallow embedding of [WebContentAnalyzer.count_words] and
    [WebContentAnalyzer.extract_keywords], together with the pieces of the
    Python runtime they call ([str.split], [str.strip], [' '.join], the three
    regular expressions, [collections.Counter] and [Counter.most_common]);
    then of the other methods of the class ([__init__], [fetch_content],
    [get_title], [count_links], [count_images], [analyze]) over the calls
    they make into [requests], [bs4] and [urllib.parse], and of the choice of
    the URL in [main].

    A Python [str] is a sequence of Unicode code points: a character is a [Z]
    and a string is a [list Z]. *)

From Stdlib Require Import String Ascii.
From Stdlib Require Import ZArith List Bool Lia Arith.
From Stdlib Require Import Sorting.Sorted Sorting.Permutation.
Import ListNotations.

Local Open Scope Z_scope.

(* ================================================================== *)
(** ** Characters and strings *)

Definition char := Z.
Definition str := list char.

Fixpoint str_eqb (a b : str) : bool :=
  match a, b with
  | [], [] => true
  | x :: a', y :: b' => (x =? y) && str_eqb a' b'
  | _, _ => false
  end.

Definition str_eq_dec : forall a b : str, {a = b} + {a <> b} :=
  list_eq_dec Z.eq_dec.

(** Python's [w in some_set] for a set of strings. *)
Definition mem (w : str) (set : list str) : bool := existsb (str_eqb w) set.

(** Source literals are written as they stand in [main.py]; [utf8] reads the
    UTF-8 bytes of a literal back into code points. *)
Definition byte_of (a : ascii) : Z := Z.of_N (N_of_ascii a).

Fixpoint bytes_of (s : string) : list Z :=
  match s with
  | EmptyString => []
  | String a r => byte_of a :: bytes_of r
  end.

Definition cont (b : Z) : Z := Z.land b 63.

Fixpoint utf8_decode (bs : list Z) : str :=
  match bs with
  | [] => []
  | b0 :: r0 =>
    if b0 <? 128 then b0 :: utf8_decode r0
    else match r0 with
    | [] => []
    | b1 :: r1 =>
      if b0 <? 224 then (Z.land b0 31 * 64 + cont b1) :: utf8_decode r1
      else match r1 with
      | [] => []
      | b2 :: r2 =>
        if b0 <? 240
        then (Z.land b0 15 * 4096 + cont b1 * 64 + cont b2) :: utf8_decode r2
        else match r2 with
        | [] => []
        | b3 :: r3 =>
          (Z.land b0 7 * 262144 + cont b1 * 4096 + cont b2 * 64 + cont b3)
            :: utf8_decode r3
        end
      end
    end
  end.

Definition utf8 (s : string) : str := utf8_decode (bytes_of s).

(* ================================================================== *)
(** ** [str] methods used by the analyzer *)

(** [str.isspace] on one character: the set CPython's [str.split()] and
    [str.strip()] treat as whitespace. *)
Definition is_space (c : char) : bool :=
  ((9 <=? c) && (c <=? 13)) || ((28 <=? c) && (c <=? 32))
  || (c =? 133) || (c =? 160) || (c =? 5760)
  || ((8192 <=? c) && (c <=? 8202))
  || (c =? 8232) || (c =? 8233) || (c =? 8239) || (c =? 8287) || (c =? 12288).

Fixpoint lstrip (s : str) : str :=
  match s with
  | [] => []
  | c :: r => if is_space c then lstrip r else s
  end.

Definition rstrip (s : str) : str := rev (lstrip (rev s)).

(** [s.strip()] *)
Definition strip (s : str) : str := rstrip (lstrip s).

(** A word that is being read goes in front of the finished ones unless it is
    empty. *)
Definition push (w : str) (ws : list str) : list str :=
  match w with
  | [] => ws
  | _ :: _ => w :: ws
  end.

(** One pass of [s.split()]: the word the text starts in (empty when it starts
    with whitespace) and the words after it. *)
Fixpoint split_from (s : str) : str * list str :=
  match s with
  | [] => ([], [])
  | c :: r =>
    let (w, ws) := split_from r in
    if is_space c then ([], push w ws) else (c :: w, ws)
  end.

(** [s.split()]: the maximal runs of non-whitespace characters. *)
Definition split (s : str) : list str :=
  let (w, ws) := split_from s in push w ws.

(** [' '.join(ws)] *)
Fixpoint join_space (ws : list str) : str :=
  match ws with
  | [] => []
  | [w] => w
  | w :: ws' => w ++ 32 :: join_space ws'
  end.

(** Line 49: [cleaned_text = ' '.join(self.text.split())]. *)
Definition clean_text (t : str) : str := join_space (split t).

(* ================================================================== *)
(** ** Regular expressions *)

(** [[\u4e00-\u9fff]] *)
Definition in_cjk (c : char) : bool := (19968 <=? c) && (c <=? 40959).

(** [[a-zA-Z]] *)
Definition is_ascii_letter (c : char) : bool :=
  ((97 <=? c) && (c <=? 122)) || ((65 <=? c) && (c <=? 90)).

Definition is_ascii_digit (c : char) : bool := (48 <=? c) && (c <=? 57).

(** [re.findall] of a one-character class: every character of the class is a
    match of its own. *)
Definition findall_class (cls : char -> bool) (s : str) : list str :=
  map (fun c => [c]) (filter cls s).

(** The longest prefix made of characters of a class (a greedy [cls*]). *)
Fixpoint span (cls : char -> bool) (s : str) : str :=
  match s with
  | [] => []
  | c :: r => if cls c then c :: span cls r else []
  end.

(** [re.match(r'cls+', w)]: anchored at the start of [w] only; the match is
    the greedy run, and there is none when the run is empty. *)
Definition match_plus (cls : char -> bool) (w : str) : option str :=
  match span cls w with
  | [] => None
  | m => Some m
  end.

Definition last_or (prev : option char) (m : str) : option char :=
  match m with
  | [] => prev
  | c :: r => Some (last r c)
  end.

Section Regex.

(** [str.isalnum] on one character: the Unicode table behind [\w] and [\b]
    of a [str] pattern.  It belongs to the interpreter, not to the
    repository. *)
Variable isalnum : char -> bool.

(** [\w] *)
Definition is_word (c : char) : bool :=
  is_ascii_letter c || is_ascii_digit c || (c =? 95) || isalnum c.

Definition is_word_at (o : option char) : bool :=
  match o with
  | None => false
  | Some c => is_word c
  end.

(** [\W]: what [\b] takes for the outside of a word. *)
Definition nonword (c : char) : bool := negb (is_word c).

(** [\b] between the character before a position and the one after it. *)
Definition word_boundary (before after : option char) : bool :=
  xorb (is_word_at before) (is_word_at after).

(** [[a-zA-Z]{k,}\b] after the greedy run took [n] letters: the engine
    gives letters back one at a time until [\b] holds or fewer than [k] are
    left. *)
Fixpoint backtrack (k : nat) (prev : option char) (s : str) (n : nat)
  : option str :=
  if (k <=? n)%nat then
    if word_boundary (last_or prev (firstn n s)) (hd_error (skipn n s))
    then Some (firstn n s)
    else match n with
         | O => None
         | S n' => backtrack k prev s n'
         end
  else None.

(** One attempt of [\b[a-zA-Z]{k,}\b] at a position: [prev] is the
    character before it, [s] the text from it on. *)
Definition try_word (k : nat) (prev : option char) (s : str) : option str :=
  if word_boundary prev (hd_error s)
  then backtrack k prev s (length (span is_ascii_letter s))
  else None.

(** The scan of [re.findall]: positions left to right; after a match the
    scan resumes behind it ([skip] counts the characters of the match that
    are still to be passed over). *)
Fixpoint scan_words (k : nat) (prev : option char) (s : str) (skip : nat)
  : list str :=
  match s with
  | [] => []
  | c :: r =>
    match skip with
    | S n => scan_words k (Some c) r n
    | O =>
      match try_word k prev s with
      | Some m => m :: scan_words k (Some c) r (length m - 1)
      | None => scan_words k (Some c) r 0
      end
    end
  end.

(** [re.findall(r'\b[a-zA-Z]{k,}\b', s)] *)
Definition findall_words (k : nat) (s : str) : list str :=
  scan_words k None s 0.

End Regex.

(* ================================================================== *)
(** ** [collections.Counter] *)

(** A [Counter] is a [dict]: keys in the order they were first inserted. *)
Definition counter := list (str * nat).

(** [mapping[elem] = mapping.get(elem, 0) + 1] *)
Fixpoint incr (w : str) (c : counter) : counter :=
  match c with
  | [] => [(w, 1%nat)]
  | (k, v) :: c' =>
    if str_eqb k w then (k, S v) :: c' else (k, v) :: incr w c'
  end.

(** [Counter(iterable)] *)
Definition Counter (l : list str) : counter :=
  fold_left (fun c w => incr w c) l [].

(** [sorted(items, key=itemgetter(1), reverse=True)]: a stable sort, so items
    with the same count keep the order they had. *)
Fixpoint insert_desc (x : str * nat) (l : counter) : counter :=
  match l with
  | [] => [x]
  | y :: l' => if (snd x <? snd y)%nat then y :: insert_desc x l' else x :: l
  end.

Fixpoint sorted_desc (l : counter) : counter :=
  match l with
  | [] => []
  | x :: r => insert_desc x (sorted_desc r)
  end.

(** [max(it, default=sentinel, key=itemgetter(1))]: the first item with the
    largest count. *)
Definition max_first (l : counter) : option (str * nat) :=
  match l with
  | [] => None
  | x :: r =>
    Some (fold_left (fun best y => if (snd best <? snd y)%nat then y else best) r x)
  end.

(** [heapq.nlargest(n, items, key=itemgetter(1))], branch by branch: [n == 1]
    goes through [max]; [n >= len(items)] through [sorted(...)[:n]]; otherwise
    the heap is seeded from [zip(range(0, -n, -1), it)], which is empty for
    [n <= 0], and else holds the [n] largest items, earlier ones first among
    equal counts. *)
Definition nlargest (n : Z) (items : counter) : counter :=
  if n =? 1 then
    match max_first items with
    | None => []
    | Some x => [x]
    end
  else if Z.of_nat (length items) <=? n then
    firstn (Z.to_nat n) (sorted_desc items)
  else if n <=? 0 then []
  else firstn (Z.to_nat n) (sorted_desc items).

(** [Counter.most_common(n)] for an integer [n]. *)
Definition most_common (n : Z) (c : counter) : counter := nlargest n c.

(* ================================================================== *)
(** ** The analyzer *)

(** What a call can raise.  [extract_keywords] handles [ImportError] only. *)
Inductive exn : Type :=
| ImportError
| OtherError.

Inductive outcome (A : Type) : Type :=
| Returns (a : A)
| Raises (e : exn).

Arguments Returns {A} a.
Arguments Raises {A} e.

(** The fields [__init__] sets.  [Soup] is the type of the parsed page
    ([BeautifulSoup]); the text analysis never looks into it. *)
Record WebContentAnalyzer (Soup : Type) : Type := {
  url : str;
  soup : option Soup;
  text : str
}.

Arguments url {Soup} _.
Arguments soup {Soup} _.
Arguments text {Soup} _.

(** The dictionary [count_words] returns. *)
Record word_count : Type := {
  chinese_chars : nat;
  english_words : nat;
  total_chars : nat
}.

(** Lines 66-70. *)
Definition en_stop_words : list str :=
  map utf8
    [ "the"; "and"; "for"; "are"; "but"; "not"; "you"; "all";
      "can"; "her"; "was"; "one"; "our"; "out"; "this"; "that";
      "with"; "from"; "have"; "has"; "had"; "will"; "more" ]%string.

(** Lines 82-85. *)
Definition zh_stop_words : list str :=
  map utf8
    [ "的"; "了"; "和"; "是"; "在"; "也"; "有"; "與"; "將"; "及"; "或"; "就"; "都";
      "而"; "及"; "著"; "以"; "對"; "由"; "及其"; "等"; "中"; "之一"; "並" ]%string.

(** The condition of the comprehension on line 86:
    [w.strip() and w not in zh_stop_words and re.match(r'[\u4e00-\u9fff]+', w)],
    each operand by its truth value. *)
Definition zh_keep (w : str) : bool :=
  match strip w with
  | [] => false
  | _ :: _ =>
    negb (mem w zh_stop_words)
    && match match_plus in_cjk w with
       | Some _ => true
       | None => false
       end
  end.

(** Instances of the interpreter's tables for running the analyzer on text
    whose letters are ASCII: [lower] on [A-Z] only, and no alphanumeric
    character beyond ASCII and the ideographs. *)
Definition ascii_lower (s : str) : str :=
  map (fun c => if (65 <=? c) && (c <=? 90) then c + 32 else c) s.

Definition cjk_isalnum (c : char) : bool := in_cjk c.

(** A segmenter for examples: one segment per whitespace-separated word. *)
Definition word_segmenter (t : str) : list str := split t.

(** A page to run the analyzer on, and the page with a given text. *)
Definition sample_page : WebContentAnalyzer unit :=
  {| url := utf8 "https://example.org";
     soup := None;
     text := utf8 "The cat and the dog. 貓 和 狗 都是 動物 的 朋友" |}.

Definition page_of (t : str) : WebContentAnalyzer unit :=
  {| url := utf8 "https://example.org"; soup := None; text := t |}.

(* ================================================================== *)
(** ** The page, the network and the terminal *)

(** What [requests.get] followed by [raise_for_status] comes to: a
    [RequestException], of which the code uses the message only, or the text
    of the response. *)
Inductive response : Type :=
| Failed (message : str)
| Body (content : str).

(** The calls into [bs4] the analyzer makes.  [Soup] is the parsed page and
    [Tag] an element of it; both are truthy objects, so [if self.soup] and
    [if title] test for [None]. *)
Record bs4 (Soup Tag : Type) : Type := {
  (** [BeautifulSoup(text, 'html.parser')] *)
  parse : str -> Soup;
  (** [soup(['script', 'style'])] *)
  find_script_style : Soup -> list Tag;
  (** [tag.decompose()], which changes the page the tag is in *)
  decompose : Soup -> Tag -> Soup;
  (** [soup.get_text()] *)
  get_text : Soup -> str;
  (** [soup.find('title')] *)
  find_title : Soup -> option Tag;
  (** [tag.string], which is [None] unless the tag holds a single string *)
  tag_string : Tag -> option str;
  (** [soup.find_all('a', href=True)] *)
  find_links : Soup -> list Tag;
  (** [link.get('href')] *)
  href : Tag -> str;
  (** [soup.find_all('img')] *)
  find_images : Soup -> list Tag
}.

Arguments parse {Soup Tag} _ _.
Arguments find_script_style {Soup Tag} _ _.
Arguments decompose {Soup Tag} _ _ _.
Arguments get_text {Soup Tag} _ _.
Arguments find_title {Soup Tag} _ _.
Arguments tag_string {Soup Tag} _ _.
Arguments find_links {Soup Tag} _ _.
Arguments href {Soup Tag} _ _.
Arguments find_images {Soup Tag} _ _.

(** The calls into [requests] and [urllib.parse].  [urljoin] and [urlparse]
    raise on a malformed URL. *)
Record net : Type := {
  http_get : str -> response;
  urljoin : str -> str -> outcome str;
  (** [urlparse(u).netloc] *)
  netloc : str -> outcome str
}.

(** The dictionary [count_links] returns. *)
Record link_count : Type := {
  total : nat;
  internal : nat;
  external : nat
}.

(** [s.startswith(p)] *)
Fixpoint startswith (p s : str) : bool :=
  match p, s with
  | [], _ => true
  | _ :: _, [] => false
  | x :: p', y :: s' => (x =? y) && startswith p' s'
  end.

(** [str(n)] for a non-negative integer. *)
Fixpoint uint_chars (u : Decimal.uint) : str :=
  match u with
  | Decimal.Nil => []
  | Decimal.D0 u' => 48 :: uint_chars u'
  | Decimal.D1 u' => 49 :: uint_chars u'
  | Decimal.D2 u' => 50 :: uint_chars u'
  | Decimal.D3 u' => 51 :: uint_chars u'
  | Decimal.D4 u' => 52 :: uint_chars u'
  | Decimal.D5 u' => 53 :: uint_chars u'
  | Decimal.D6 u' => 54 :: uint_chars u'
  | Decimal.D7 u' => 55 :: uint_chars u'
  | Decimal.D8 u' => 56 :: uint_chars u'
  | Decimal.D9 u' => 57 :: uint_chars u'
  end.

Definition str_of_nat (n : nat) : str := uint_chars (Nat.to_uint n).

(** Digits, lowest first, with a comma in front of every fourth one. *)
Fixpoint commas_from (low_first : str) (in_group : nat) : str :=
  match low_first with
  | [] => []
  | d :: r =>
    if (in_group =? 3)%nat then 44 :: d :: commas_from r 1
    else d :: commas_from r (S in_group)
  end.

(** [f"{n:,}"] *)
Definition fmt_thousands (n : nat) : str :=
  rev (commas_from (rev (str_of_nat n)) 0).

(** [f"{i:2d}"]: right-aligned in two columns. *)
Definition fmt_2d (i : nat) : str :=
  repeat 32 (2 - length (str_of_nat i)) ++ str_of_nat i.

(** [f"{word:15s}"]: left-aligned in fifteen columns. *)
Definition fmt_15s (word : str) : str :=
  word ++ repeat 32 (15 - length word).

(** [f"{title}"] for a title that may be [None]. *)
Definition fmt_title (title : option str) : str :=
  match title with
  | Some t => t
  | None => utf8 "None"
  end.

(** ["=" * 60] *)
Definition rule : str := repeat 61 60.

(** Line 151, for the [i]-th keyword. *)
Definition keyword_line (i : nat) (k : str * nat) : str :=
  utf8 "  " ++ fmt_2d i ++ utf8 ". " ++ fmt_15s (fst k)
  ++ utf8 " (" ++ str_of_nat (snd k) ++ utf8 " 次)".

(** The lines of the loop of lines 150-151 over [enumerate(keywords, i)]. *)
Fixpoint keyword_lines (i : nat) (keywords : counter) : list str :=
  match keywords with
  | [] => []
  | k :: r => keyword_line i k :: keyword_lines (S i) r
  end.

(** Lines 156-159. *)
Definition link_lines (l : link_count) : list str :=
  [ 10 :: utf8 "🔗 連結統計:";
    utf8 "  • 總連結數: " ++ str_of_nat (total l);
    utf8 "  • 內部連結: " ++ str_of_nat (internal l);
    utf8 "  • 外部連結: " ++ str_of_nat (external l) ].

(** Lines 142-145. *)
Definition word_count_lines (wc : word_count) : list str :=
  [ 10 :: utf8 "📊 字數統計:";
    utf8 "  • 中文字符: " ++ fmt_thousands (chinese_chars wc);
    utf8 "  • 英文單詞: " ++ fmt_thousands (english_words wc);
    utf8 "  • 總字符數: " ++ fmt_thousands (total_chars wc) ].

(** ** The URL [main] analyzes (lines 178-203) *)

Definition default_url : str := utf8 "https://www.python.org".

(** [url.startswith(('http://', 'https://'))] *)
Definition has_scheme (u : str) : bool :=
  startswith (utf8 "http://") u || startswith (utf8 "https://") u.

(** The value of [url] on line 206.  [argv] is [sys.argv], [env] is
    [os.getenv('TARGET_URL')], and [typed] is what [input] returns, [None]
    when it raises [KeyboardInterrupt] or [EOFError]; [input] is reached
    only when the first two give nothing. *)
Definition target_url (argv : list str) (env : option str) (typed : option str)
  : str :=
  let url :=
    match argv with
    | _ :: arg :: _ => arg
    | _ =>
      match env with
      | Some (c :: e) => c :: e
      | _ =>
        match typed with
        | Some line => strip line
        | None => []
        end
      end
    end in
  let url :=
    match url with
    | [] => default_url
    | _ :: _ => url
    end in
  if has_scheme url then url else utf8 "https://" ++ url.

(** [__init__] *)
Definition init {Soup : Type} (u : str) : WebContentAnalyzer Soup :=
  {| url := u; soup := None; text := [] |}.

(** A page and a network to run the analyzer on.  A page is its title (a
    tag, with or without a string), the [href]s of its links, its images and
    its text; a tag is the string it carries, if any. *)
Record toy_soup : Type := {
  toy_title : option (option str);
  toy_links : list str;
  toy_images : nat;
  toy_scripts : nat;
  toy_text : str
}.

Definition toy_parse (content : str) : toy_soup :=
  {| toy_title := Some (Some (utf8 "  Example Domain "));
     toy_links := filter has_scheme (split content)
                  ++ [utf8 "/about"; utf8 "mailto:someone"];
     toy_images := 2;
     toy_scripts := 1;
     toy_text := content |}.

Definition toy_bs4 : bs4 toy_soup (option str) :=
  {| parse := toy_parse;
     find_script_style := fun p => repeat None (toy_scripts p);
     decompose := fun p _ =>
       {| toy_title := toy_title p; toy_links := toy_links p;
          toy_images := toy_images p; toy_scripts := Nat.pred (toy_scripts p);
          toy_text := toy_text p |};
     get_text := toy_text;
     find_title := toy_title;
     tag_string := fun t => t;
     find_links := fun p => map Some (toy_links p);
     href := fun t => match t with Some h => h | None => [] end;
     find_images := fun p => repeat None (toy_images p) |}.

Definition toy_net : net :=
  {| http_get := fun u =>
       if startswith (utf8 "https://example.org") u
       then Body (utf8 "The cat and the dog. https://example.org/a https://other.test/b")
       else Failed (utf8 "connection refused");
     urljoin := fun base h =>
       if startswith (utf8 "mailto:") h then Returns h
       else if has_scheme h then Returns h
       else Returns (base ++ h);
     netloc := fun u =>
       if startswith (utf8 "https://example.org") u then Returns (utf8 "example.org")
       else if has_scheme u then Returns (utf8 "other.test")
       else Returns [] |}.

(* ================================================================== *)
(** ** Notions the statements are about *)

(** The ways of cutting [s] in two with a non-empty first part. *)
Fixpoint cuts (s : str) : list (str * str) :=
  match s with
  | [] => []
  | c :: r => ([c], r) :: map (fun p => (c :: fst p, snd p)) (cuts r)
  end.

(** The ways of writing [s] as [pre ++ run ++ post] with [run] non-empty. *)
Fixpoint factors (s : str) : list (str * str * str) :=
  map (fun p => ([], fst p, snd p)) (cuts s)
  ++ match s with
     | [] => []
     | c :: r => map (fun f => (c :: fst (fst f), snd (fst f), snd f)) (factors r)
     end.

Definition edge (outside : char -> bool) (o : option char) : bool :=
  match o with
  | None => true
  | Some c => outside c
  end.

(** [run] is a run of ASCII letters with, on each side, the end of the text
    or a character of [outside]. *)
Definition bounded_run (outside : char -> bool) (f : str * str * str) : bool :=
  let '(pre, run, post) := f in
  forallb is_ascii_letter run
  && edge outside (last_or None pre)
  && edge outside (hd_error post).

(** A character that is not an ASCII letter. *)
Definition nonletter (c : char) : bool := negb (is_ascii_letter c).

(** The number of runs of ASCII letters of [s] bounded by [outside]. *)
Definition count_runs (outside : char -> bool) (s : str) : nat :=
  length (filter (bounded_run outside) (factors s)).

(** The same count, position by position: a run opens at a position when the
    character before it is an edge, a letter stands there, and the letters
    from there on are closed by an edge. *)
Fixpoint run_closes (outside : char -> bool) (s : str) : bool :=
  match s with
  | [] => true
  | c :: r => if is_ascii_letter c then run_closes outside r else outside c
  end.

Definition run_starts (outside : char -> bool) (s : str) : bool :=
  match s with
  | [] => false
  | c :: r => is_ascii_letter c && run_closes outside r
  end.

Fixpoint count_opens (outside : char -> bool) (prev : option char) (s : str)
  : nat :=
  match s with
  | [] => O
  | c :: r =>
    ((if edge outside prev && run_starts outside s then 1 else 0)
     + count_opens outside (Some c) r)%nat
  end.

(** The matches of [\b[a-zA-Z]{k,}\b], position by position: where a run
    opens and is at least [k] long, the run. *)
Fixpoint words_from (k : nat) (outside : char -> bool) (prev : option char)
  (s : str) : list str :=
  match s with
  | [] => []
  | c :: r =>
    (if edge outside prev && run_starts outside s
        && (k <=? length (span is_ascii_letter s))%nat
     then [span is_ascii_letter s] else [])
    ++ words_from k outside (Some c) r
  end.

(** A stop word of the list starts with a character of the class. *)
Definition starts_in (cls : char -> bool) (w : str) : bool :=
  match w with
  | [] => false
  | c :: _ => cls c
  end.

(** The keys of a counter, in its order. *)
Definition keys (c : counter) : list str := map fst c.

(** [c[w]], which is [0] for a missing key. *)
Fixpoint get (w : str) (c : counter) : nat :=
  match c with
  | [] => O
  | (k, v) :: c' => if str_eqb k w then v else get w c'
  end.

(** The distinct strings of a stream, each at its first occurrence. *)
Fixpoint distinct (l : list str) : list str :=
  match l with
  | [] => []
  | x :: r => x :: filter (fun w => negb (str_eqb x w)) (distinct r)
  end.

(** [a] stands somewhere before [b] in [l]. *)
Definition before {A : Type} (a b : A) (l : list A) : Prop :=
  exists l1 l2 l3, l = l1 ++ a :: l2 ++ b :: l3.

(** Items with count [n]: the key of the stable sort's equal-count groups. *)
Definition has_count (n : nat) (x : str * nat) : bool := (snd x =? n)%nat.

Definition nonspace (c : char) : Prop := is_space c = false.

(** A word of [split]: not empty and free of whitespace. *)
Definition solid (w : str) : Prop := w <> [] /\ Forall nonspace w.

(** The position of the first occurrence of [w] in a stream (its length when
    there is none). *)
Fixpoint first_index (w : str) (l : list str) : nat :=
  match l with
  | [] => O
  | x :: r => if str_eqb x w then O else S (first_index w r)
  end.

(** Two adjacent characters of [s] both satisfy [p]. *)
Fixpoint has_adjacent (p : char -> bool) (s : str) : bool :=
  match s with
  | [] => false
  | c :: r =>
    (p c && match r with
            | [] => false
            | d :: _ => p d
            end)
    || has_adjacent p r
  end.

(* ================================================================== *)
(** ** The methods *)

Section Analyzer.

Variable Soup : Type.
(** The interpreter's Unicode tables: [str.isalnum] and [str.lower]. *)
Variable isalnum : char -> bool.
Variable lower : str -> str.
(** [jieba.cut], when the module can be imported. *)
Variable jieba : option (str -> list str).

(** A method: from the object to what the call returns or raises, and the
    object after the call. *)
Definition M (A : Type) : Type :=
  WebContentAnalyzer Soup -> outcome A * WebContentAnalyzer Soup.

Definition ret {A : Type} (a : A) : M A := fun self => (Returns a, self).

Definition bind {A B : Type} (m : M A) (k : A -> M B) : M B :=
  fun self =>
    match m self with
    | (Returns a, self') => k a self'
    | (Raises e, self') => (Raises e, self')
    end.

Notation "x <- m ;; k" := (bind m (fun x => k))
  (at level 61, m at next level, right associativity).

(** [self.text] *)
Definition self_text : M str := fun self => (Returns (text self), self).

(** [import jieba] *)
Definition import_jieba : M (str -> list str) :=
  fun self =>
    match jieba with
    | Some cut => (Returns cut, self)
    | None => (Raises ImportError, self)
    end.

(** [try: body / except ImportError: handler] *)
Definition try_except_ImportError {A : Type} (body handler : M A) : M A :=
  fun self =>
    match body self with
    | (Raises ImportError, self') => handler self'
    | r => r
    end.

(** Lines 46-58. *)
Definition count_words : M word_count :=
  t <- self_text ;;
  let cleaned_text := clean_text t in
  let chinese := length (findall_class in_cjk cleaned_text) in
  let english := length (findall_words isalnum 1 cleaned_text) in
  ret {| chinese_chars := chinese;
         english_words := english;
         total_chars := length cleaned_text |}.

(** Lines 63 and 72. *)
Definition filtered_en_words (t : str) : list str :=
  let words := findall_words isalnum 3 (lower t) in
  filter (fun w => negb (mem w en_stop_words)) words.

(** Lines 75-79. *)
Definition zh_words : M (list str) :=
  try_except_ImportError
    (cut <- import_jieba ;;
     t <- self_text ;;
     ret (cut t))
    (ret []).

(** Line 86. *)
Definition filtered_zh_words (zh : list str) : list str := filter zh_keep zh.

(** Lines 60-93. *)
Definition extract_keywords (top_n : Z) : M counter :=
  t <- self_text ;;
  let en := filtered_en_words t in
  zh <- zh_words ;;
  let all_words := en ++ filtered_zh_words zh in
  let word_freq := Counter all_words in
  ret (most_common top_n word_freq).

(** The combined filtered stream ([all_words], line 89) of a text: what
    [zh_words] evaluates to is [cut text] when the module is there and the
    empty list when it is not. *)
Definition segments (t : str) : list str :=
  match jieba with
  | Some cut => cut t
  | None => []
  end.

Definition all_words (t : str) : list str :=
  filtered_en_words t ++ filtered_zh_words (segments t).

(** The two read-only methods as calls, to speak of sequences of them. *)
Inductive call : Type :=
| CountWords
| ExtractKeywords (top_n : Z).

Inductive result : Type :=
| WordCount (o : outcome word_count)
| Keywords (o : outcome counter).

Definition invoke (c : call) (self : WebContentAnalyzer Soup)
  : result * WebContentAnalyzer Soup :=
  match c with
  | CountWords => let (o, self') := count_words self in (WordCount o, self')
  | ExtractKeywords n =>
    let (o, self') := extract_keywords n self in (Keywords o, self')
  end.

(** The object after a sequence of calls. *)
Definition after (cs : list call) (self : WebContentAnalyzer Soup)
  : WebContentAnalyzer Soup :=
  fold_left (fun s c => snd (invoke c s)) cs self.

(** ** The other methods *)

Variable Tag : Type.
Variable page : bs4 Soup Tag.
Variable web : net.

(** [self.soup] and [self.url] *)
Definition self_soup : M (option Soup) := fun self => (Returns (soup self), self).

Definition self_url : M str := fun self => (Returns (url self), self).

(** A call into a library, which returns or raises. *)
Definition call_out {A : Type} (o : outcome A) : M A := fun self => (o, self).

(** Lines 39-44.  [title.string] may be [None], and [None.strip()] raises
    ([AttributeError], here [OtherError]). *)
Definition get_title : M (option str) :=
  sp <- self_soup ;;
  match sp with
  | Some sp =>
    match find_title page sp with
    | Some title =>
      match tag_string page title with
      | Some s => ret (Some (strip s))
      | None => call_out (Raises OtherError)
      end
    | None => ret (Some (utf8 "無標題"))
    end
  | None => ret None
  end.

(** The loop of lines 104-112 over the links that are left, with the two
    lists as they stand. *)
Fixpoint sort_links (base_url base_domain : str) (links : list Tag)
  (internal_links external_links : list str) : outcome (list str * list str) :=
  match links with
  | [] => Returns (internal_links, external_links)
  | link :: rest =>
    match urljoin web base_url (href page link) with
    | Raises e => Raises e
    | Returns full_url =>
      match netloc web full_url with
      | Raises e => Raises e
      | Returns link_domain =>
        if str_eqb link_domain base_domain
        then sort_links base_url base_domain rest
               (internal_links ++ [full_url]) external_links
        else match link_domain with
             | _ :: _ =>
               sort_links base_url base_domain rest
                 internal_links (external_links ++ [full_url])
             | [] =>
               sort_links base_url base_domain rest internal_links external_links
             end
      end
    end
  end.

(** Lines 95-119. *)
Definition count_links : M (option link_count) :=
  sp <- self_soup ;;
  match sp with
  | Some sp =>
    let all_links := find_links page sp in
    u <- self_url ;;
    base_domain <- call_out (netloc web u) ;;
    lists <- call_out (sort_links u base_domain all_links [] []) ;;
    ret (Some {| total := length all_links;
                 internal := length (fst lists);
                 external := length (snd lists) |})
  | None => ret None
  end.

(** Lines 121-126. *)
Definition count_images : M nat :=
  sp <- self_soup ;;
  match sp with
  | Some sp => ret (length (find_images page sp))
  | None => ret O
  end.

(** The analyzer together with what has been printed: the text of each
    [print] call, in order (the terminal ends each with a newline). *)
Record world : Type := {
  obj : WebContentAnalyzer Soup;
  stdout : list str
}.

(** A method that may print. *)
Definition P (A : Type) : Type := world -> outcome A * world.

Definition pret {A : Type} (a : A) : P A := fun w => (Returns a, w).

Definition pbind {A B : Type} (m : P A) (k : A -> P B) : P B :=
  fun w =>
    match m w with
    | (Returns a, w') => k a w'
    | (Raises e, w') => (Raises e, w')
    end.

Notation "x <~ m ;; k" := (pbind m (fun x => k))
  (at level 61, m at next level, right associativity).

(** A method that does not print, among those that do. *)
Definition lift {A : Type} (m : M A) : P A :=
  fun w =>
    let (o, self') := m (obj w) in
    (o, {| obj := self'; stdout := stdout w |}).

Definition print_all (lines : list str) : P unit :=
  fun w => (Returns tt, {| obj := obj w; stdout := stdout w ++ lines |}).

(** [print(line)] *)
Definition print (line : str) : P unit := print_all [line].

(** Lines 27-33: the object once [content] has been received.  The tags
    [soup(['script', 'style'])] finds are decomposed one after the other in
    the page [self.soup] holds. *)
Definition fetched (self : WebContentAnalyzer Soup) (content : str)
  : WebContentAnalyzer Soup :=
  let sp := parse page content in
  let sp := fold_left (decompose page) (find_script_style page sp) sp in
  {| url := url self; soup := Some sp; text := get_text page sp |}.

(** Lines 17-37. *)
Definition fetch_content : P bool :=
  fun w =>
    let self := obj w in
    match http_get web (url self) with
    | Body content =>
      (Returns true, {| obj := fetched self content; stdout := stdout w |})
    | Failed message =>
      (Returns false,
       {| obj := self;
          stdout := stdout w ++ [utf8 "❌ 無法抓取網頁: " ++ message] |})
    end.

(** Lines 128-166. *)
Definition analyze : P unit :=
  u <~ lift self_url ;;
  _ <~ print (10 :: utf8 "🔍 正在分析: " ++ u ++ [10]) ;;
  ok <~ fetch_content ;;
  if negb ok then pret tt
  else
    title <~ lift get_title ;;
    _ <~ print (utf8 "📄 標題: " ++ fmt_title title) ;;
    _ <~ print rule ;;
    word_count <~ lift count_words ;;
    _ <~ print_all (word_count_lines word_count) ;;
    keywords <~ lift (extract_keywords 10) ;;
    _ <~ print (10 :: utf8 "🔑 Top 10 關鍵字:") ;;
    _ <~ print_all (keyword_lines 1 keywords) ;;
    links <~ lift count_links ;;
    _ <~ match links with
         | Some l => print_all (link_lines l)
         | None => pret tt
         end ;;
    image_count <~ lift count_images ;;
    _ <~ print (10 :: utf8 "🖼️  圖片數量: " ++ str_of_nat image_count) ;;
    _ <~ print (10 :: rule) ;;
    print (utf8 "✅ 分析完成！" ++ [10]).

(** Every method of the class as a call, and a session: a caller that goes
    on to the next call whether the last one returned or raised. *)
Inductive method : Type :=
| CallFetch
| CallTitle
| CallWords
| CallKeywords (top_n : Z)
| CallLinks
| CallImages
| CallAnalyze.

Definition perform (m : method) (w : world) : world :=
  match m with
  | CallFetch => snd (fetch_content w)
  | CallTitle => snd (lift get_title w)
  | CallWords => snd (lift count_words w)
  | CallKeywords n => snd (lift (extract_keywords n) w)
  | CallLinks => snd (lift count_links w)
  | CallImages => snd (lift count_images w)
  | CallAnalyze => snd (analyze w)
  end.

Definition session (ms : list method) (w : world) : world :=
  fold_left (fun w m => perform m w) ms w.

(** The state right after [WebContentAnalyzer(u)]. *)
Definition fresh (u : str) : world := {| obj := init u; stdout := [] |}.

(** [self.text] is the text of the page [self.soup] holds, and empty when it
    holds none. *)
Definition in_step (self : WebContentAnalyzer Soup) : Prop :=
  text self = match soup self with
              | Some sp => get_text page sp
              | None => []
              end.






(** A method that leaves the analyzer as it is and only adds to what has
    been printed. *)
Definition only_prints {A : Type} (m : P A) : Prop :=
  forall w,
    obj (snd (m w)) = obj w /\ exists lines, stdout (snd (m w)) = stdout w ++ lines.

(** The links of a page that [count_links] leaves out of both lists: those
    whose domain is empty and is not the page's own. *)
Definition resolve (base_url : str) (link : Tag) : outcome str :=
  match urljoin web base_url (href page link) with
  | Raises e => Raises e
  | Returns full_url => netloc web full_url
  end.

Definition unplaced (base_url base_domain : str) (link : Tag) : bool :=
  match resolve base_url link with
  | Returns [] => negb (str_eqb [] base_domain)
  | _ => false
  end.


(* ================================================================== *)
(** ** Strings: equality and membership *)

Lemma str_eqb_eq (a b : str) : str_eqb a b = true <-> a = b.
Proof.
  revert b; induction a as [|x a IH]; intros [|y b]; simpl;
    try (split; [discriminate | congruence]); try tauto.
  rewrite andb_true_iff, Z.eqb_eq, IH.
  split; [intros [-> ->]; reflexivity | intros E; injection E; auto].
Qed.

Lemma str_eqb_refl (a : str) : str_eqb a a = true.
Proof. apply str_eqb_eq; reflexivity. Qed.

Lemma str_eqb_neq (a b : str) : str_eqb a b = false <-> a <> b.
Proof.
  rewrite <- str_eqb_eq. destruct (str_eqb a b); split; congruence.
Qed.

(* ================================================================== *)
(** ** What the two methods evaluate to *)

Lemma zh_words_run (self : WebContentAnalyzer Soup) :
  zh_words self = (Returns (segments (text self)), self).
Proof.
  unfold zh_words, try_except_ImportError, bind, import_jieba, segments.
  destruct jieba; reflexivity.
Qed.

Lemma count_words_run (self : WebContentAnalyzer Soup) :
  count_words self =
  (Returns {| chinese_chars := length (findall_class in_cjk (clean_text (text self)));
              english_words := length (findall_words isalnum 1 (clean_text (text self)));
              total_chars := length (clean_text (text self)) |},
   self).
Proof. reflexivity. Qed.

Lemma extract_keywords_run (top_n : Z) (self : WebContentAnalyzer Soup) :
  extract_keywords top_n self =
  (Returns (most_common top_n (Counter (all_words (text self)))), self).
Proof.
  unfold extract_keywords, bind, self_text.
  rewrite zh_words_run. reflexivity.
Qed.

(* ================================================================== *)
(** ** Whitespace: [split], [join] and [strip] *)

Lemma push_solid (w : str) (ws : list str) :
  Forall nonspace w -> Forall solid ws -> Forall solid (push w ws).
Proof.
  intros Hw Hws. destruct w as [|c w]; simpl; [assumption|].
  constructor; [split; [discriminate | assumption] | assumption].
Qed.

Lemma split_from_solid (s : str) :
  Forall nonspace (fst (split_from s)) /\ Forall solid (snd (split_from s)).
Proof.
  induction s as [|c r [IHw IHws]]; simpl.
  - split; constructor.
  - destruct (split_from r) as [w ws]; simpl in *.
    destruct (is_space c) eqn:E; simpl.
    + split; [constructor | apply push_solid; assumption].
    + split; [constructor; assumption | assumption].
Qed.

Lemma split_solid (s : str) : Forall solid (split s).
Proof.
  unfold split. pose proof (split_from_solid s) as [Hw Hws].
  destruct (split_from s) as [w ws]. apply push_solid; assumption.
Qed.

Lemma split_from_app (w s : str) :
  Forall nonspace w ->
  split_from (w ++ s) = (w ++ fst (split_from s), snd (split_from s)).
Proof.
  induction 1 as [|c w Hc Hw IH]; simpl.
  - destruct (split_from s); reflexivity.
  - rewrite IH. unfold nonspace in Hc. rewrite Hc. reflexivity.
Qed.

Lemma join_space_cons (w v : str) (ws : list str) :
  join_space (w :: v :: ws) = w ++ 32 :: join_space (v :: ws).
Proof. reflexivity. Qed.

Lemma split_space (s : str) : split_from (32 :: s) = ([], split s).
Proof.
  unfold split. simpl. destruct (split_from s) as [w ws]. reflexivity.
Qed.

Lemma split_join_space (ws : list str) :
  Forall solid ws -> split (join_space ws) = ws.
Proof.
  induction 1 as [|w ws [Hne Hw] Hws IH]; [reflexivity|].
  destruct ws as [|v ws].
  - simpl. unfold split. rewrite <- (app_nil_r w) at 1.
    rewrite split_from_app by assumption. simpl. rewrite app_nil_r.
    destruct w; [contradiction | reflexivity].
  - rewrite join_space_cons. unfold split at 1.
    rewrite split_from_app by assumption.
    rewrite split_space, IH. simpl. rewrite app_nil_r.
    destruct w; [contradiction | reflexivity].
Qed.

Lemma has_adjacent_app (p : char -> bool) (w s : str) :
  Forall (fun c => p c = false) w ->
  has_adjacent p (w ++ s) = has_adjacent p s.
Proof.
  induction 1 as [|c w Hc Hw IH]; simpl; [reflexivity|].
  rewrite Hc, IH. reflexivity.
Qed.

Lemma join_space_head (w : str) (ws : list str) :
  solid w -> exists c r, join_space (w :: ws) = c :: r /\ nonspace c.
Proof.
  intros [Hne Hw]. destruct w as [|c w]; [contradiction|].
  inversion Hw; subst.
  destruct ws; simpl; eauto.
Qed.

Lemma join_space_last (ws : list str) :
  Forall solid ws -> ws <> [] ->
  exists r c, join_space ws = r ++ [c] /\ nonspace c.
Proof.
  induction 1 as [|w ws [Hne Hw] Hws IH]; intros Hnil; [contradiction|].
  destruct ws as [|v ws].
  - simpl. destruct (exists_last Hne) as [r [c ->]].
    exists r, c. split; [reflexivity|].
    rewrite Forall_app in Hw. destruct Hw as [_ Hc]. inversion Hc; assumption.
  - destruct IH as [r [c [E Hc]]]; [discriminate|].
    rewrite join_space_cons, E.
    exists (w ++ 32 :: r), c. split; [|assumption].
    rewrite <- app_assoc. reflexivity.
Qed.

Lemma join_space_no_adjacent (p : char -> bool) (ws : list str) :
  (forall c, p c = true -> is_space c = true) ->
  Forall solid ws -> has_adjacent p (join_space ws) = false.
Proof.
  intros Hp. induction 1 as [|w ws [Hne Hw] Hws IH]; [reflexivity|].
  assert (Hpw : Forall (fun c => p c = false) w).
  { eapply Forall_impl; [|exact Hw]. intros c Hc.
    destruct (p c) eqn:E; [|reflexivity].
    apply Hp in E. unfold nonspace in Hc. congruence. }
  destruct ws as [|v ws].
  - simpl. rewrite <- (app_nil_r w). rewrite has_adjacent_app by assumption.
    reflexivity.
  - rewrite join_space_cons, has_adjacent_app by assumption.
    inversion Hws as [|? ? Hv _]; subst.
    destruct (join_space_head v ws Hv) as [c [r [E Hc]]].
    change (has_adjacent p (32 :: join_space (v :: ws)))
      with ((p 32 && match join_space (v :: ws) with
                     | [] => false
                     | d :: _ => p d
                     end) || has_adjacent p (join_space (v :: ws))).
    rewrite IH, orb_false_r. rewrite E.
    destruct (p c) eqn:Epc; [|apply andb_false_r].
    apply Hp in Epc. unfold nonspace in Hc. congruence.
Qed.

Lemma lstrip_nonspace (c : char) (r : str) :
  nonspace c -> lstrip (c :: r) = c :: r.
Proof. unfold nonspace. intros H. simpl. rewrite H. reflexivity. Qed.

Lemma strip_join_space (ws : list str) :
  Forall solid ws -> strip (join_space ws) = join_space ws.
Proof.
  intros Hws. destruct ws as [|w ws]; [reflexivity|].
  inversion Hws as [|? ? Hw Hrest]; subst.
  destruct (join_space_head w ws Hw) as [c [r [E Hc]]].
  destruct (join_space_last (w :: ws) Hws) as [r' [c' [E' Hc']]]; [discriminate|].
  unfold strip, rstrip. rewrite E, (lstrip_nonspace c r Hc), <- E, E'.
  rewrite rev_app_distr.
  change (rev [c'] ++ rev r') with (c' :: rev r').
  rewrite (lstrip_nonspace c' _ Hc').
  change (c' :: rev r') with (rev [c'] ++ rev r').
  rewrite <- rev_app_distr, rev_involutive. reflexivity.
Qed.

(* ================================================================== *)
(** ** Runs of letters: the declarative count, position by position *)

Lemma length_filter_map {A B : Type} (f : B -> bool) (g : A -> B) (l : list A) :
  length (filter f (map g l)) = length (filter (fun x => f (g x)) l).
Proof.
  induction l as [|x l IH]; simpl; [reflexivity|].
  destruct (f (g x)); simpl; rewrite IH; reflexivity.
Qed.

Lemma length_filter_false {A : Type} (f : A -> bool) (l : list A) :
  (forall x, f x = false) -> length (filter f l) = O.
Proof.
  intros H. induction l as [|x l IH]; simpl; [reflexivity|].
  rewrite H. exact IH.
Qed.

Lemma length_filter_cons {A : Type} (f : A -> bool) (x : A) (l : list A) :
  length (filter f (x :: l))
  = ((if f x then 1 else 0) + length (filter f l))%nat.
Proof. simpl. destruct (f x); reflexivity. Qed.

Lemma last_or_cons (prev : option char) (c : char) (pre : str) :
  last_or prev (c :: pre) = last_or (Some c) pre.
Proof.
  unfold last_or. destruct pre as [|d pre]; [reflexivity|].
  f_equal. revert c d. induction pre as [|e pre IH]; intros c d; [reflexivity|].
  change (last (d :: e :: pre) c) with (last (e :: pre) c).
  change (last (e :: pre) d) with (last (d :: e :: pre) d) at 1.
  rewrite (IH c e). symmetry. apply (IH d e).
Qed.

Section Runs.

Variable outside : char -> bool.
Hypothesis outside_not_letter :
  forall c, is_ascii_letter c = true -> outside c = false.

Lemma count_cuts (s : str) :
  length (filter (fun p => forallb is_ascii_letter (fst p)
                           && edge outside (hd_error (snd p))) (cuts s))
  = if run_starts outside s then 1%nat else O.
Proof.
  induction s as [|c r IH]; [reflexivity|].
  cbn [cuts]. rewrite length_filter_cons, length_filter_map.
  cbn [fst snd forallb run_starts]. rewrite andb_true_r.
  destruct (is_ascii_letter c) eqn:Ec; cbn [andb].
  - rewrite (filter_ext _ (fun p => forallb is_ascii_letter (fst p)
                                    && edge outside (hd_error (snd p))))
      by (intros p; reflexivity).
    etransitivity; [apply f_equal; exact IH|].
    destruct r as [|d r']; [reflexivity|].
    cbn [hd_error edge run_closes run_starts].
    destruct (is_ascii_letter d) eqn:Ed; cbn [andb].
    + rewrite (outside_not_letter d Ed). reflexivity.
    + destruct (outside d); reflexivity.
  - apply length_filter_false. intros x. reflexivity.
Qed.

Lemma count_factors (prev : option char) (s : str) :
  length (filter (fun f => forallb is_ascii_letter (snd (fst f))
                           && edge outside (last_or prev (fst (fst f)))
                           && edge outside (hd_error (snd f))) (factors s))
  = count_opens outside prev s.
Proof.
  revert prev. induction s as [|c r IH]; intros prev; [reflexivity|].
  cbn [factors count_opens].
  rewrite filter_app, length_app, !length_filter_map.
  cbn [fst snd last_or]. f_equal.
  - destruct (edge outside prev) eqn:Ep.
    + cbn [andb]. rewrite <- count_cuts.
      f_equal. apply filter_ext. intros p. rewrite andb_true_r. reflexivity.
    + cbn [andb]. apply length_filter_false. intros x.
      rewrite andb_false_r. reflexivity.
  - rewrite <- (IH (Some c)). f_equal. apply filter_ext. intros f.
    change (Some (last (fst (fst f)) c)) with (last_or prev (c :: fst (fst f))).
    rewrite last_or_cons. reflexivity.
Qed.

Lemma count_runs_opens (s : str) :
  count_runs outside s = count_opens outside None s.
Proof.
  unfold count_runs. rewrite <- count_factors.
  f_equal. apply filter_ext. intros [[pre run] post]. reflexivity.
Qed.

End Runs.

(* ================================================================== *)
(** ** What [\b[a-zA-Z]{k,}\b] matches *)

Section Words.

Lemma letter_is_word (c : char) :
  is_ascii_letter c = true -> is_word isalnum c = true.
Proof. unfold is_word. intros ->. reflexivity. Qed.

Lemma nonword_not_letter (c : char) :
  is_ascii_letter c = true -> (nonword isalnum) c = false.
Proof. intros H. unfold nonword. rewrite (letter_is_word c H). reflexivity. Qed.

Lemma edge_nonword (o : option char) :
  edge (nonword isalnum) o = negb (is_word_at isalnum o).
Proof. destruct o; reflexivity. Qed.

Lemma span_firstn (cls : char -> bool) (s : str) :
  firstn (length (span cls s)) s = span cls s.
Proof.
  induction s as [|c r IH]; [reflexivity|].
  simpl. destruct (cls c); simpl; [rewrite IH|]; reflexivity.
Qed.

Lemma firstn_span_letters (n : nat) (s : str) :
  (n <= length (span is_ascii_letter s))%nat ->
  forallb is_ascii_letter (firstn n s) = true.
Proof.
  revert s. induction n as [|n IH]; intros s Hn; [reflexivity|].
  destruct s as [|c r]; [reflexivity|].
  simpl in Hn |- *. destruct (is_ascii_letter c); simpl in Hn |- *; [|lia].
  apply IH. lia.
Qed.

Lemma skipn_span_letter (n : nat) (s : str) :
  (n < length (span is_ascii_letter s))%nat ->
  exists c, hd_error (skipn n s) = Some c /\ is_ascii_letter c = true.
Proof.
  revert s. induction n as [|n IH]; intros s Hn.
  - destruct s as [|c r]; simpl in Hn; [lia|].
    destruct (is_ascii_letter c) eqn:E; simpl in Hn; [|lia].
    exists c. split; [reflexivity | assumption].
  - destruct s as [|c r]; simpl in Hn; [lia|].
    destruct (is_ascii_letter c); simpl in Hn; [|lia].
    simpl. apply IH. lia.
Qed.

Lemma last_letters_word (prev : option char) (m : str) :
  m <> [] -> forallb is_ascii_letter m = true ->
  is_word_at isalnum (last_or prev m) = true.
Proof.
  intros Hne Hall. destruct (exists_last Hne) as [r [c ->]].
  rewrite forallb_app in Hall. apply andb_true_iff in Hall as [_ Hc].
  simpl in Hc. rewrite andb_true_r in Hc.
  destruct r as [|d r]; simpl.
  - apply letter_is_word, Hc.
  - rewrite last_last. apply letter_is_word, Hc.
Qed.

Lemma run_closes_skipn (s : str) :
  run_closes (nonword isalnum) s
  = edge (nonword isalnum) (hd_error (skipn (length (span is_ascii_letter s)) s)).
Proof.
  induction s as [|c r IH]; [reflexivity|].
  simpl. destruct (is_ascii_letter c); simpl; [exact IH | reflexivity].
Qed.

Lemma backtrack_eq (k : nat) (prev : option char) (s : str) (n : nat) :
  backtrack isalnum k prev s n =
  if (k <=? n)%nat then
    if word_boundary isalnum (last_or prev (firstn n s)) (hd_error (skipn n s))
    then Some (firstn n s)
    else match n with
         | O => None
         | S n' => backtrack isalnum k prev s n'
         end
  else None.
Proof. destruct n; reflexivity. Qed.

(** Inside a run of letters [\b] never holds: giving letters back is of no
    use. *)
Lemma backtrack_short (k : nat) (prev : option char) (s : str) (n : nat) :
  (1 <= k)%nat -> (n < length (span is_ascii_letter s))%nat ->
  backtrack isalnum k prev s n = None.
Proof.
  intros Hk. induction n as [|n IH]; intros Hn; rewrite backtrack_eq.
  - destruct (Nat.leb_spec k 0); [lia | reflexivity].
  - destruct (Nat.leb_spec k (S n)); [|reflexivity].
    destruct (skipn_span_letter (S n) s Hn) as [c [-> Hc]].
    unfold word_boundary.
    rewrite (last_letters_word prev (firstn (S n) s)).
    + cbn [is_word_at]. rewrite (letter_is_word c Hc). cbn [xorb].
      apply IH. lia.
    + destruct s; [simpl in Hn; lia | discriminate].
    + apply firstn_span_letters. lia.
Qed.

(** An attempt matches exactly the whole run of letters at the position, when
    the run is at least [k] long and has a non-word character or an end of
    the text on each side. *)
Lemma try_word_spec (k : nat) (prev : option char) (s : str) :
  (1 <= k)%nat ->
  try_word isalnum k prev s =
  if edge (nonword isalnum) prev && run_starts (nonword isalnum) s
     && (k <=? length (span is_ascii_letter s))%nat
  then Some (span is_ascii_letter s) else None.
Proof.
  intros Hk. unfold try_word. rewrite edge_nonword.
  destruct s as [|c r].
  - cbn [run_starts]. rewrite andb_false_r. cbn [andb].
    rewrite backtrack_eq. cbn [span length].
    destruct (Nat.leb_spec k 0); [lia|].
    destruct (word_boundary isalnum prev (hd_error [])); reflexivity.
  - cbn [run_starts span hd_error]. destruct (is_ascii_letter c) eqn:Ec.
    + unfold word_boundary. cbn [is_word_at]. rewrite (letter_is_word c Ec).
      rewrite xorb_true_r. cbn [length andb].
      destruct (is_word_at isalnum prev); cbn [negb andb]; [reflexivity|].
      rewrite backtrack_eq.
      destruct (Nat.leb_spec k (S (length (span is_ascii_letter r))));
        [|rewrite andb_false_r; reflexivity].
      rewrite andb_true_r.
      unfold word_boundary.
      rewrite (last_letters_word prev).
      * cbn [skipn]. rewrite run_closes_skipn, edge_nonword. cbn [xorb].
        destruct (is_word_at isalnum
                  (hd_error (skipn (length (span is_ascii_letter r)) r)));
          cbn [negb].
        -- apply backtrack_short; [assumption|].
           cbn [span]. rewrite Ec. cbn [length]. lia.
        -- cbn [firstn]. rewrite span_firstn. reflexivity.
      * discriminate.
      * apply firstn_span_letters. cbn [span]. rewrite Ec. cbn [length]. lia.
    + cbn [andb length]. rewrite andb_false_r. cbn [andb].
      rewrite backtrack_eq. destruct (Nat.leb_spec k 0); [lia|].
      destruct (word_boundary isalnum prev (Some c)); reflexivity.
Qed.

(** The scan counts the positions where a run opens.  While it passes over a
    match it is inside a run of letters, where none opens. *)
Lemma scan_words_count (s : str) (prev : option char) (skip : nat) :
  (skip <= length (span is_ascii_letter s))%nat ->
  skip = O \/ is_word_at isalnum prev = true ->
  length (scan_words isalnum 1 prev s skip) = count_opens (nonword isalnum) prev s.
Proof.
  revert prev skip. induction s as [|c r IH]; intros prev skip Hskip Hprev;
    [reflexivity|].
  cbn [scan_words count_opens]. destruct skip as [|n].
  - rewrite try_word_spec by lia.
    destruct (edge (nonword isalnum) prev && run_starts (nonword isalnum) (c :: r)) eqn:Eo.
    + apply andb_true_iff in Eo as [_ Est]. cbn [run_starts] in Est.
      apply andb_true_iff in Est as [Ec _].
      cbn [span]. rewrite Ec. cbn [length Nat.leb andb].
      cbn [Nat.add]. f_equal.
      apply IH; [lia | right; cbn [is_word_at]; apply letter_is_word, Ec].
    + cbn [andb length]. apply IH; [lia | left; reflexivity].
  - destruct Hprev as [Hprev | Hprev]; [discriminate|].
    rewrite edge_nonword, Hprev. cbn [negb andb Nat.add].
    cbn [span] in Hskip. destruct (is_ascii_letter c) eqn:Ec;
      cbn [length] in Hskip; [|lia].
    apply IH; [lia | right; cbn [is_word_at]; apply letter_is_word, Ec].
Qed.

Lemma findall_words_count (s : str) :
  length (findall_words isalnum 1 s) = count_runs (nonword isalnum) s.
Proof.
  unfold findall_words.
  rewrite (count_runs_opens (nonword isalnum) nonword_not_letter).
  apply scan_words_count; [lia | left; reflexivity].
Qed.

End Words.

(* ================================================================== *)
(** ** Order in lists *)

Lemma before_cons {A : Type} (a b x : A) (l : list A) :
  before a b l -> before a b (x :: l).
Proof.
  intros [l1 [l2 [l3 ->]]]. exists (x :: l1), l2, l3. reflexivity.
Qed.

Lemma before_head {A : Type} (a b : A) (l : list A) :
  In b l -> before a b (a :: l).
Proof.
  intros H. apply in_split in H as [l2 [l3 ->]]. exists [], l2, l3. reflexivity.
Qed.

Lemma before_cons_inv {A : Type} (a b x : A) (l : list A) :
  before a b (x :: l) -> (a = x /\ In b l) \/ before a b l.
Proof.
  intros [l1 [l2 [l3 E]]]. destruct l1 as [|y l1]; simpl in E; injection E as -> ->.
  - left. split; [reflexivity|]. apply in_elt.
  - right. exists l1, l2, l3. reflexivity.
Qed.

Lemma before_In {A : Type} (a b : A) (l : list A) :
  before a b l -> In a l /\ In b l.
Proof.
  intros [l1 [l2 [l3 ->]]]. split.
  - apply in_elt.
  - apply in_or_app. right. right. apply in_elt.
Qed.

Lemma before_filter {A : Type} (p : A -> bool) (a b : A) (l : list A) :
  p a = true -> p b = true -> before a b l -> before a b (filter p l).
Proof.
  intros Ha Hb [l1 [l2 [l3 ->]]].
  exists (filter p l1), (filter p l2), (filter p l3).
  rewrite filter_app. simpl. rewrite Ha, filter_app. simpl. rewrite Hb.
  reflexivity.
Qed.

Lemma before_filter_inv {A : Type} (p : A -> bool) (a b : A) (l : list A) :
  before a b (filter p l) -> before a b l.
Proof.
  induction l as [|x l IH]; simpl; intros H; [exact H|].
  destruct (p x).
  - apply before_cons_inv in H as [[-> Hb] | H].
    + apply before_head. apply filter_In in Hb. tauto.
    + apply before_cons, IH, H.
  - apply before_cons, IH, H.
Qed.

Lemma before_map {A B : Type} (f : A -> B) (a b : A) (l : list A) :
  before a b l -> before (f a) (f b) (map f l).
Proof.
  intros [l1 [l2 [l3 ->]]]. exists (map f l1), (map f l2), (map f l3).
  rewrite map_app. simpl. rewrite map_app. reflexivity.
Qed.

Lemma before_firstn {A : Type} (n : nat) (a b : A) (l : list A) :
  before a b (firstn n l) -> before a b l.
Proof.
  intros [l1 [l2 [l3 E]]]. exists l1, l2, (l3 ++ skipn n l).
  rewrite <- (firstn_skipn n l) at 1. rewrite E.
  repeat (rewrite <- app_assoc; simpl). reflexivity.
Qed.

Lemma before_nth_error {A : Type} (l : list A) (i j : nat) (a b : A) :
  nth_error l i = Some a -> nth_error l j = Some b -> (i < j)%nat ->
  before a b l.
Proof.
  intros Hi Hj Hlt.
  apply nth_error_split in Hi as [l1 [r [-> Hlen]]].
  rewrite nth_error_app2 in Hj by lia.
  replace (j - length l1)%nat with (S (j - length l1 - 1)) in Hj by lia.
  simpl in Hj. apply nth_error_split in Hj as [l2 [l3 [-> _]]].
  exists l1, l2, l3. reflexivity.
Qed.

(* ================================================================== *)
(** ** [Counter]: keys in first-seen order, values the occurrence counts *)

Lemma str_eqb_sym (a b : str) : str_eqb a b = str_eqb b a.
Proof.
  destruct (str_eqb a b) eqn:E.
  - apply str_eqb_eq in E. subst. symmetry. apply str_eqb_refl.
  - apply str_eqb_neq in E. symmetry. apply str_eqb_neq. congruence.
Qed.

Lemma mem_In (w : str) (l : list str) : mem w l = true <-> In w l.
Proof.
  unfold mem. rewrite existsb_exists. split.
  - intros [x [Hx E]]. apply str_eqb_eq in E. subst. exact Hx.
  - intros H. exists w. split; [exact H | apply str_eqb_refl].
Qed.

Lemma mem_app (w : str) (a b : list str) : mem w (a ++ b) = mem w a || mem w b.
Proof. unfold mem. apply existsb_app. Qed.

Lemma keys_incr (w : str) (c : counter) :
  keys (incr w c) = if mem w (keys c) then keys c else keys c ++ [w].
Proof.
  induction c as [|[k v] c IH]; [reflexivity|].
  cbn [incr keys map fst mem existsb]. fold (keys c). fold (mem w (keys c)).
  rewrite (str_eqb_sym w k).
  destruct (str_eqb k w); cbn [orb keys map fst]; [reflexivity|].
  fold (keys (incr w c)). fold (keys c). rewrite IH.
  destruct (mem w (keys c)); reflexivity.
Qed.

Lemma filter_absorb {A : Type} (p q : A -> bool) (l : list A) :
  (forall x, p x = true -> q x = true) ->
  filter p (filter q l) = filter p l.
Proof.
  intros H. induction l as [|x l IH]; [reflexivity|].
  simpl. destruct (q x) eqn:Eq; simpl.
  - rewrite IH. reflexivity.
  - destruct (p x) eqn:Ep; [|exact IH].
    apply H in Ep. congruence.
Qed.

Lemma filter_both {A : Type} (p q : A -> bool) (l : list A) :
  filter p (filter q l) = filter (fun x => q x && p x) l.
Proof.
  induction l as [|x l IH]; [reflexivity|].
  simpl. destruct (q x); simpl; [destruct (p x)|]; rewrite IH; reflexivity.
Qed.

Lemma keys_fold (l : list str) (c : counter) :
  keys (fold_left (fun c w => incr w c) l c)
  = keys c ++ filter (fun w => negb (mem w (keys c))) (distinct l).
Proof.
  revert c. induction l as [|x r IH]; intros c.
  - simpl. rewrite app_nil_r. reflexivity.
  - cbn [fold_left distinct filter]. rewrite IH, keys_incr.
    destruct (mem x (keys c)) eqn:Ex; cbn [negb].
    + f_equal. symmetry. apply filter_absorb.
      intros w Hw. apply negb_true_iff. apply str_eqb_neq. intros ->.
      rewrite Ex in Hw. discriminate.
    + rewrite <- app_assoc. cbn [app]. do 2 f_equal.
      rewrite filter_both. apply filter_ext. intros w.
      rewrite mem_app. cbn [mem existsb]. rewrite orb_false_r, negb_orb.
      rewrite (str_eqb_sym w x). apply andb_comm.
Qed.

Lemma keys_Counter (l : list str) : keys (Counter l) = distinct l.
Proof.
  unfold Counter. rewrite keys_fold. simpl.
  induction (distinct l) as [|x d IH]; [reflexivity|].
  simpl. rewrite IH. reflexivity.
Qed.

Lemma In_distinct (w : str) (l : list str) : In w (distinct l) <-> In w l.
Proof.
  induction l as [|x r IH]; [tauto|].
  cbn [distinct In]. rewrite filter_In, IH, negb_true_iff, str_eqb_neq.
  destruct (str_eq_dec x w); tauto.
Qed.

Lemma NoDup_distinct (l : list str) : NoDup (distinct l).
Proof.
  induction l as [|x r IH]; [constructor|].
  cbn [distinct]. constructor.
  - rewrite filter_In, negb_true_iff, str_eqb_neq. tauto.
  - apply NoDup_filter, IH.
Qed.

Lemma first_index_cons (w x : str) (r : list str) :
  first_index w (x :: r) = if str_eqb x w then O else S (first_index w r).
Proof. reflexivity. Qed.

(** In the first-seen order, the string that stands first occurs first. *)
Lemma before_distinct (a b : str) (l : list str) :
  before a b (distinct l) -> (first_index a l < first_index b l)%nat.
Proof.
  induction l as [|x r IH]; intros H.
  - destruct H as [l1 [l2 [l3 E]]]. destruct l1; discriminate.
  - cbn [distinct] in H. rewrite !first_index_cons.
    apply before_cons_inv in H as [[-> Hb] | H].
    + rewrite str_eqb_refl.
      apply filter_In in Hb as [_ Hb]. apply negb_true_iff in Hb.
      rewrite Hb. lia.
    + pose proof (before_In _ _ _ H) as [Ha Hb].
      apply filter_In in Ha as [_ Ha]. apply filter_In in Hb as [_ Hb].
      apply negb_true_iff in Ha, Hb. rewrite Ha, Hb.
      apply before_filter_inv in H. apply IH in H. lia.
Qed.

Lemma get_incr (w w' : str) (c : counter) :
  get w' (incr w c) = if str_eqb w w' then S (get w' c) else get w' c.
Proof.
  induction c as [|[k v] c IH].
  - reflexivity.
  - cbn [incr get]. destruct (str_eqb k w) eqn:Ek.
    + apply str_eqb_eq in Ek. subst k. cbn [get].
      destruct (str_eqb w w'); reflexivity.
    + cbn [get]. destruct (str_eqb k w') eqn:Ek'; [|exact IH].
      apply str_eqb_eq in Ek'. subst k. rewrite (str_eqb_sym w w'), Ek.
      reflexivity.
Qed.

Lemma get_fold (w : str) (l : list str) (c : counter) :
  get w (fold_left (fun c w => incr w c) l c)
  = (get w c + count_occ str_eq_dec l w)%nat.
Proof.
  revert c. induction l as [|x r IH]; intros c; [simpl; lia|].
  cbn [fold_left count_occ]. rewrite IH, get_incr.
  destruct (str_eq_dec x w) as [->|Hne].
  - rewrite str_eqb_refl. lia.
  - apply str_eqb_neq in Hne. rewrite Hne. reflexivity.
Qed.

Lemma get_In (w : str) (n : nat) (c : counter) :
  NoDup (keys c) -> In (w, n) c -> get w c = n.
Proof.
  induction c as [|[k v] c IH]; intros Hnd Hin; [contradiction|].
  cbn [keys map fst] in Hnd. inversion Hnd as [|? ? Hk Hc]; subst.
  cbn [get]. destruct Hin as [E | Hin].
  - injection E as -> ->. rewrite str_eqb_refl. reflexivity.
  - destruct (str_eqb k w) eqn:Ek; [|apply IH; assumption].
    apply str_eqb_eq in Ek. subst k. exfalso. apply Hk.
    apply (in_map fst) in Hin. exact Hin.
Qed.

Lemma Counter_In (w : str) (n : nat) (l : list str) :
  In (w, n) (Counter l) ->
  n = count_occ str_eq_dec l w /\ (0 < n)%nat /\ In w l.
Proof.
  intros Hin.
  assert (Hw : In w l).
  { apply In_distinct. rewrite <- keys_Counter.
    apply (in_map fst) in Hin. exact Hin. }
  assert (Hn : n = count_occ str_eq_dec l w).
  { erewrite <- (get_In w n (Counter l)); [|rewrite keys_Counter; apply NoDup_distinct|exact Hin].
    unfold Counter. rewrite get_fold. reflexivity. }
  split; [exact Hn|]. split; [|exact Hw].
  rewrite Hn. apply count_occ_In, Hw.
Qed.

Lemma length_Counter (l : list str) :
  length (Counter l) = length (nodup str_eq_dec l).
Proof.
  rewrite <- (length_map fst (Counter l)). fold (keys (Counter l)).
  rewrite keys_Counter. apply Nat.le_antisymm.
  - apply NoDup_incl_length; [apply NoDup_distinct|].
    intros w Hw. apply nodup_In, In_distinct, Hw.
  - apply NoDup_incl_length; [apply NoDup_nodup|].
    intros w Hw. apply In_distinct. apply nodup_In in Hw. exact Hw.
Qed.

(* ================================================================== *)
(** ** [sorted(..., reverse=True)], [max] and [heapq.nlargest] *)

Lemma insert_desc_perm (x : str * nat) (l : counter) :
  Permutation (insert_desc x l) (x :: l).
Proof.
  induction l as [|y l IH]; simpl; [reflexivity|].
  destruct (snd x <? snd y)%nat; [|reflexivity].
  rewrite IH. apply perm_swap.
Qed.

Lemma sorted_desc_perm (l : counter) : Permutation (sorted_desc l) l.
Proof.
  induction l as [|x l IH]; simpl; [reflexivity|].
  rewrite insert_desc_perm, IH. reflexivity.
Qed.

Lemma insert_desc_sorted (x : str * nat) (l : counter) :
  StronglySorted (fun a b => (snd b <= snd a)%nat) l ->
  StronglySorted (fun a b => (snd b <= snd a)%nat) (insert_desc x l).
Proof.
  induction 1 as [|y l Hl IH Hy]; simpl.
  - constructor; constructor.
  - destruct (Nat.ltb_spec (snd x) (snd y)).
    + constructor; [exact IH|].
      rewrite Forall_forall in Hy |- *. intros z Hz.
      apply (Permutation_in _ (insert_desc_perm x l)) in Hz.
      destruct Hz as [<- | Hz]; [lia | apply Hy, Hz].
    + constructor; [constructor; assumption|].
      constructor; [assumption|].
      rewrite Forall_forall in Hy |- *. intros z Hz.
      specialize (Hy z Hz). lia.
Qed.

Lemma sorted_desc_sorted (l : counter) :
  StronglySorted (fun a b => (snd b <= snd a)%nat) (sorted_desc l).
Proof.
  induction l as [|x l IH]; simpl; [constructor|].
  apply insert_desc_sorted, IH.
Qed.

(** Stability: within one count the sort changes nothing. *)
Lemma insert_desc_stable (n : nat) (x : str * nat) (l : counter) :
  filter (has_count n) (insert_desc x l) = filter (has_count n) (x :: l).
Proof.
  induction l as [|y l IH]; [reflexivity|].
  cbn [insert_desc]. destruct (Nat.ltb_spec (snd x) (snd y)); [|reflexivity].
  cbn [filter] in IH |- *. rewrite IH. unfold has_count.
  destruct (Nat.eqb_spec (snd x) n); destruct (Nat.eqb_spec (snd y) n);
    try reflexivity; lia.
Qed.

Lemma sorted_desc_stable (n : nat) (l : counter) :
  filter (has_count n) (sorted_desc l) = filter (has_count n) l.
Proof.
  induction l as [|x l IH]; [reflexivity|].
  cbn [sorted_desc]. rewrite insert_desc_stable. cbn [filter]. rewrite IH.
  reflexivity.
Qed.

Lemma before_sorted_desc (a b : str * nat) (l : counter) :
  snd a = snd b -> before a b (sorted_desc l) -> before a b l.
Proof.
  intros E H.
  apply (before_filter (has_count (snd a))) in H;
    [| apply Nat.eqb_refl | unfold has_count; rewrite E; apply Nat.eqb_refl].
  rewrite sorted_desc_stable in H.
  apply before_filter_inv in H. exact H.
Qed.

Lemma hd_insert_desc (x : str * nat) (l : counter) :
  hd_error (insert_desc x l) =
  Some match hd_error l with
       | None => x
       | Some y => if (snd x <? snd y)%nat then y else x
       end.
Proof.
  destruct l as [|y l]; [reflexivity|].
  simpl. destruct (snd x <? snd y)%nat; reflexivity.
Qed.

Lemma fold_max_hd (r : counter) (x : str * nat) :
  fold_left (fun best y => if (snd best <? snd y)%nat then y else best) r x
  = match hd_error (sorted_desc r) with
    | None => x
    | Some y => if (snd x <? snd y)%nat then y else x
    end.
Proof.
  revert x. induction r as [|y r IH]; intros x; [reflexivity|].
  cbn [fold_left sorted_desc]. rewrite IH, hd_insert_desc.
  destruct (hd_error (sorted_desc r)) as [z|].
  - destruct (Nat.ltb_spec (snd x) (snd y));
      destruct (Nat.ltb_spec (snd y) (snd z));
      repeat match goal with
             | |- context [(?a <? ?b)%nat] => destruct (Nat.ltb_spec a b)
             end; try reflexivity; exfalso; lia.
  - reflexivity.
Qed.

(** [max] returns what the stable sort puts first. *)
Lemma max_first_sorted (l : counter) : max_first l = hd_error (sorted_desc l).
Proof.
  destruct l as [|x r]; [reflexivity|].
  cbn [max_first sorted_desc]. rewrite fold_max_hd, hd_insert_desc. reflexivity.
Qed.

(** The three branches of [nlargest] agree with [sorted(...)[:n]] for a
    positive [n] and give the empty list for the others. *)
Lemma nlargest_eq (n : Z) (items : counter) :
  nlargest n items =
  if n <=? 0 then [] else firstn (Z.to_nat n) (sorted_desc items).
Proof.
  unfold nlargest. destruct (Z.eqb_spec n 1) as [->|Hn1].
  - rewrite max_first_sorted. cbn [Z.leb Z.compare].
    change (Z.to_nat 1) with 1%nat.
    destruct (sorted_desc items); reflexivity.
  - destruct (Z.leb_spec (Z.of_nat (length items)) n) as [Hsz|Hsz];
      [|reflexivity].
    destruct (Z.leb_spec n 0) as [Hle|Hgt]; [|reflexivity].
    destruct items as [|x r]; [|cbn [length] in Hsz; lia].
    destruct (Z.to_nat n); reflexivity.
Qed.

Lemma most_common_eq (n : Z) (c : counter) :
  most_common n c =
  if n <=? 0 then [] else firstn (Z.to_nat n) (sorted_desc c).
Proof. apply nlargest_eq. Qed.

Lemma StronglySorted_firstn {A : Type} (R : A -> A -> Prop) (n : nat) (l : list A) :
  StronglySorted R l -> StronglySorted R (firstn n l).
Proof.
  intros H. revert n. induction H as [|x l Hl IH Hx]; intros n.
  - rewrite firstn_nil. constructor.
  - destruct n as [|n]; simpl; constructor; [apply IH|].
    rewrite Forall_forall in Hx |- *. intros y Hy.
    apply Hx. rewrite <- (firstn_skipn n l). apply in_or_app. left. exact Hy.
Qed.

Lemma StronglySorted_map_snd (l : counter) :
  StronglySorted (fun a b => (snd b <= snd a)%nat) l ->
  StronglySorted ge (map snd l).
Proof.
  induction 1 as [|x l Hl IH Hx]; simpl; constructor; [exact IH|].
  rewrite Forall_forall in Hx |- *. intros n Hn.
  apply in_map_iff in Hn as [y [<- Hy]]. unfold ge. apply Hx, Hy.
Qed.

(** Everything in the ranking is an item of the counter. *)
Lemma most_common_incl (n : Z) (c : counter) (x : str * nat) :
  In x (most_common n c) -> In x c.
Proof.
  rewrite most_common_eq. destruct (n <=? 0); [contradiction|].
  intros H. apply (Permutation_in _ (sorted_desc_perm c)).
  rewrite <- (firstn_skipn (Z.to_nat n) (sorted_desc c)).
  apply in_or_app. left. exact H.
Qed.

Lemma NoDup_firstn {A : Type} (n : nat) (l : list A) :
  NoDup l -> NoDup (firstn n l).
Proof.
  intros H. rewrite <- (firstn_skipn n l) in H.
  apply NoDup_app_remove_r in H. exact H.
Qed.

Lemma most_common_keys_NoDup (n : Z) (c : counter) :
  NoDup (keys c) -> NoDup (keys (most_common n c)).
Proof.
  intros H. rewrite most_common_eq. destruct (n <=? 0); [constructor|].
  unfold keys. rewrite <- firstn_map. apply NoDup_firstn.
  apply (Permutation_NoDup (l := map fst c)); [|exact H].
  apply Permutation_map. symmetry. apply sorted_desc_perm.
Qed.

Lemma before_most_common (n : Z) (c : counter) (a b : str * nat) :
  snd a = snd b -> before a b (most_common n c) -> before a b c.
Proof.
  intros E. rewrite most_common_eq. destruct (n <=? 0).
  - intros [l1 [l2 [l3 H]]]. destruct l1; discriminate.
  - intros H. apply before_firstn in H. apply before_sorted_desc in H; assumption.
Qed.

(* ================================================================== *)
(** ** The Chinese filter (line 86) *)

Lemma cjk_nonspace (c : char) : in_cjk c = true -> is_space c = false.
Proof.
  unfold in_cjk, is_space. intros H.
  apply andb_true_iff in H as [H1 H2].
  apply Z.leb_le in H1. apply Z.leb_le in H2.
  repeat match goal with
         | |- context [(?a <=? ?b)] => destruct (Z.leb_spec a b)
         | |- context [(?a =? ?b)] => destruct (Z.eqb_spec a b)
         end; try reflexivity; lia.
Qed.

Lemma lstrip_nil (s : str) :
  lstrip s = [] -> Forall (fun c => is_space c = true) s.
Proof.
  induction s as [|c r IH]; intros H; [constructor|].
  simpl in H. destruct (is_space c) eqn:E; [|discriminate].
  constructor; [exact E | apply IH, H].
Qed.

Lemma strip_nil (s : str) :
  strip s = [] -> Forall (fun c => is_space c = true) s.
Proof.
  unfold strip, rstrip. intros H.
  assert (H' : lstrip (rev (lstrip s)) = []).
  { rewrite <- (rev_involutive (lstrip (rev (lstrip s)))), H. reflexivity. }
  apply lstrip_nil in H'.
  assert (Hl : Forall (fun c => is_space c = true) (lstrip s)).
  { rewrite Forall_forall in H' |- *. intros c Hc. apply H', in_rev.
    rewrite rev_involutive. exact Hc. }
  clear H H'. induction s as [|c r IH]; [constructor|].
  simpl in Hl. destruct (is_space c) eqn:E.
  - constructor; [exact E | apply IH, Hl].
  - inversion Hl; subst. congruence.
Qed.

(** What the condition of line 86 amounts to: the segment is no stop word and
    its first character is an ideograph.  The characters after the first are
    not looked at. *)
Lemma zh_keep_iff (w : str) :
  zh_keep w = true <->
  mem w zh_stop_words = false /\ exists c r, w = c :: r /\ in_cjk c = true.
Proof.
  unfold zh_keep, match_plus. split.
  - destruct (strip w) as [|s0 sr]; [discriminate|].
    intros H. apply andb_true_iff in H as [Hs Hm].
    apply negb_true_iff in Hs. split; [exact Hs|].
    destruct w as [|c r]; [discriminate|].
    simpl in Hm. destruct (in_cjk c) eqn:E; [|discriminate].
    exists c, r. split; [reflexivity | exact E].
  - intros [Hs [c [r [-> Hc]]]].
    destruct (strip (c :: r)) eqn:Es.
    + apply strip_nil in Es. inversion Es; subst.
      rewrite (cjk_nonspace c Hc) in *. discriminate.
    + rewrite Hs. simpl. rewrite Hc. reflexivity.
Qed.

(* ================================================================== *)
(** ** The claims *)

(** C1, at the segment that breaks it: [re.match] anchors the pattern
    [[\u4e00-\u9fff]+] at the start of the segment only, so the segment
    ["卡拉OK"] (two ideographs followed by two Latin letters, no stop word) is
    kept whole although not all of its characters are ideographs. *)
Theorem zh_keep_mixed_segment :
  zh_keep (utf8 "卡拉OK") = true
  /\ strip (utf8 "卡拉OK") <> []
  /\ mem (utf8 "卡拉OK") zh_stop_words = false
  /\ forallb in_cjk (utf8 "卡拉OK") = false
  /\ existsb is_ascii_letter (utf8 "卡拉OK") = true
  /\ filtered_zh_words [utf8 "卡拉OK"] = [utf8 "卡拉OK"].
Proof. repeat split; try reflexivity. discriminate. Qed.

(** C2: in the output of [extract_keywords], of two words with equal counts
    the one whose first occurrence in the combined filtered stream (Latin
    tokens, then Chinese segments) comes earlier is ranked earlier. *)
Theorem extract_keywords_ties_first_seen
  (top_n : Z) (self : WebContentAnalyzer Soup) :
  exists out,
    extract_keywords top_n self = (Returns out, self)
    /\ forall (i j : nat) (w1 w2 : str) (c : nat),
         nth_error out i = Some (w1, c) ->
         nth_error out j = Some (w2, c) ->
         (first_index w1 (all_words (text self))
          < first_index w2 (all_words (text self)))%nat ->
         (i < j)%nat.
Proof.
  eexists. split; [apply extract_keywords_run|].
  intros i j w1 w2 c Hi Hj Hfirst.
  destruct (Nat.lt_trichotomy i j) as [Hlt | [-> | Hgt]]; [exact Hlt | |].
  - rewrite Hi in Hj. injection Hj as ->. lia.
  - exfalso.
    pose proof (before_nth_error _ _ _ _ _ Hj Hi Hgt) as Hb.
    apply before_most_common in Hb; [|reflexivity].
    apply (before_map fst) in Hb. fold (keys (Counter (all_words (text self)))) in Hb.
    rewrite keys_Counter in Hb. apply before_distinct in Hb.
    cbn [fst] in Hb. lia.
Qed.

(** C3: for [top_n > 0] the output of [extract_keywords] has length
    [min(top_n, number of distinct filtered tokens)] and its counts are
    non-increasing. *)
Theorem extract_keywords_length_sorted
  (top_n : Z) (self : WebContentAnalyzer Soup) :
  0 < top_n ->
  exists out,
    extract_keywords top_n self = (Returns out, self)
    /\ length out
       = Nat.min (Z.to_nat top_n)
                 (length (nodup str_eq_dec (all_words (text self))))
    /\ StronglySorted ge (map snd out).
Proof.
  intros Hn. eexists. split; [apply extract_keywords_run|].
  rewrite most_common_eq. destruct (Z.leb_spec top_n 0); [lia|]. split.
  - rewrite length_firstn, <- length_Counter.
    rewrite (Permutation_length (sorted_desc_perm _)). reflexivity.
  - apply StronglySorted_map_snd, StronglySorted_firstn, sorted_desc_sorted.
Qed.

(** C4, as the code has it: [english_words] is the number of runs of ASCII
    letters of the canonical text that have, on each side, an end of the text
    or a character that is not a word character ([\b]: letters, digits, the
    underscore and the other alphanumerics are word characters); both cases
    count and there is no minimum length. *)
Theorem count_words_english_words (self : WebContentAnalyzer Soup) :
  exists wc,
    count_words self = (Returns wc, self)
    /\ english_words wc
       = count_runs (nonword isalnum) (clean_text (text self)).
Proof.
  eexists. split; [apply count_words_run|].
  cbn [english_words]. apply findall_words_count.
Qed.

(** C6: with [top_n <= 0], [extract_keywords] returns the empty list and
    raises nothing. *)
Theorem extract_keywords_nonpositive
  (top_n : Z) (self : WebContentAnalyzer Soup) :
  top_n <= 0 -> extract_keywords top_n self = (Returns [], self).
Proof.
  intros Hn. rewrite extract_keywords_run, most_common_eq.
  destruct (Z.leb_spec top_n 0); [reflexivity | lia].
Qed.

(** C7: whitespace normalization is idempotent, and the canonical text has no
    two consecutive spaces and no leading or trailing whitespace. *)
Theorem clean_text_idempotent (x : str) :
  clean_text (clean_text x) = clean_text x
  /\ has_adjacent (Z.eqb 32) (clean_text x) = false
  /\ strip (clean_text x) = clean_text x.
Proof.
  unfold clean_text. pose proof (split_solid x) as Hs. repeat split.
  - rewrite split_join_space by exact Hs. reflexivity.
  - apply join_space_no_adjacent; [|exact Hs].
    intros c Hc. apply Z.eqb_eq in Hc. subst c. reflexivity.
  - apply strip_join_space, Hs.
Qed.

(** C8: [chinese_chars] plus the number of characters of the canonical text
    outside U+4E00-U+9FFF is [total_chars], the length of the canonical text;
    an empty text gives all-zero counts. *)
Theorem count_words_accounts (self : WebContentAnalyzer Soup) :
  exists wc,
    count_words self = (Returns wc, self)
    /\ (chinese_chars wc
        + length (filter (fun c => negb (in_cjk c)) (clean_text (text self))))%nat
       = total_chars wc
    /\ total_chars wc = length (clean_text (text self))
    /\ forall (u : str) (s : option Soup),
         count_words {| url := u; soup := s; text := [] |}
         = (Returns {| chinese_chars := 0; english_words := 0; total_chars := 0 |},
            {| url := u; soup := s; text := [] |}).
Proof.
  eexists. split; [apply count_words_run|].
  cbn [chinese_chars total_chars]. repeat split.
  unfold findall_class. rewrite length_map.
  induction (clean_text (text self)) as [|c r IH]; [reflexivity|].
  cbn [filter]. destruct (in_cjk c); cbn [negb length]; lia.
Qed.

(** C9: the words of the output of [extract_keywords] are pairwise distinct,
    and every count is positive and is the number of occurrences of its word
    in the combined filtered stream. *)
Theorem extract_keywords_distinct_counts
  (top_n : Z) (self : WebContentAnalyzer Soup) :
  exists out,
    extract_keywords top_n self = (Returns out, self)
    /\ NoDup (map fst out)
    /\ forall (w : str) (c : nat),
         In (w, c) out ->
         (0 < c)%nat /\ c = count_occ str_eq_dec (all_words (text self)) w.
Proof.
  eexists. split; [apply extract_keywords_run|]. split.
  - apply most_common_keys_NoDup. rewrite keys_Counter. apply NoDup_distinct.
  - intros w c Hin. apply most_common_incl, Counter_In in Hin. tauto.
Qed.

Lemma invoke_frame (c : call) (self : WebContentAnalyzer Soup) :
  snd (invoke c self) = self.
Proof.
  destruct c as [|n]; unfold invoke.
  - rewrite count_words_run. reflexivity.
  - rewrite extract_keywords_run. reflexivity.
Qed.

(** C10: [count_words] and [extract_keywords] leave [url], [soup] and [text]
    as they were, so after any sequence of such calls each of them returns
    what it returns on the object as it was. *)
Theorem analysis_read_only (cs : list call) (self : WebContentAnalyzer Soup) :
  snd (count_words self) = self
  /\ (forall top_n, snd (extract_keywords top_n self) = self)
  /\ url (after cs self) = url self
  /\ soup (after cs self) = soup self
  /\ text (after cs self) = text self
  /\ forall c, invoke c (after cs self) = invoke c self.
Proof.
  assert (Hafter : after cs self = self).
  { unfold after. induction cs as [|c cs IH]; [reflexivity|].
    cbn [fold_left]. rewrite invoke_frame. exact IH. }
  rewrite Hafter. repeat split.
  intros n. rewrite extract_keywords_run. reflexivity.
Qed.

(* ================================================================== *)
(** ** Beyond the claims: [strip] and the URL [main] analyzes *)

Lemma lstrip_app_nonspace (l : str) (c : char) :
  nonspace c -> lstrip (l ++ [c]) = lstrip l ++ [c].
Proof.
  intros Hc. induction l as [|x l IH]; simpl.
  - unfold nonspace in Hc. rewrite Hc. reflexivity.
  - destruct (is_space x); [exact IH | reflexivity].
Qed.

Lemma rstrip_cons_nonspace (c : char) (r : str) :
  nonspace c -> rstrip (c :: r) = c :: rstrip r.
Proof.
  intros Hc. unfold rstrip. cbn [rev].
  rewrite lstrip_app_nonspace by exact Hc.
  rewrite rev_app_distr. reflexivity.
Qed.

Lemma lstrip_shape (s : str) :
  lstrip s = [] \/ exists c r, lstrip s = c :: r /\ nonspace c.
Proof.
  induction s as [|x s IH]; [left; reflexivity|].
  simpl. destruct (is_space x) eqn:E; [exact IH|].
  right. exists x, s. split; [reflexivity | exact E].
Qed.

Lemma rstrip_shape (s : str) :
  rstrip s = [] \/ exists r c, rstrip s = r ++ [c] /\ nonspace c.
Proof.
  unfold rstrip. destruct (lstrip_shape (rev s)) as [-> | [c [r [-> Hc]]]].
  - left. reflexivity.
  - right. exists (rev r), c. split; [reflexivity | exact Hc].
Qed.

Lemma strip_fixed (s : str) (c c' : char) (r r' : str) :
  s = c :: r -> nonspace c -> s = r' ++ [c'] -> nonspace c' -> strip s = s.
Proof.
  intros E Hc E' Hc'. unfold strip, rstrip.
  rewrite E, (lstrip_nonspace c r Hc), <- E, E'.
  rewrite rev_app_distr.
  change (rev [c'] ++ rev r') with (c' :: rev r').
  rewrite (lstrip_nonspace c' _ Hc').
  change (c' :: rev r') with (rev [c'] ++ rev r').
  rewrite <- rev_app_distr, rev_involutive. reflexivity.
Qed.

Lemma strip_shape (s : str) :
  strip s = []
  \/ exists c r r' c',
       strip s = c :: r /\ nonspace c /\ strip s = r' ++ [c'] /\ nonspace c'.
Proof.
  unfold strip. destruct (lstrip_shape s) as [-> | [c [r [-> Hc]]]];
    [left; reflexivity|].
  right. destruct (rstrip_shape (c :: r)) as [E | [r' [c' [E' Hc']]]].
  - rewrite rstrip_cons_nonspace in E by exact Hc. discriminate.
  - exists c, (rstrip r), r', c'. repeat split; try assumption.
    apply rstrip_cons_nonspace, Hc.
Qed.

(** What [strip] returns has no whitespace left to strip. *)
Lemma strip_idempotent (s : str) : strip (strip s) = strip s.
Proof.
  destruct (strip_shape s) as [-> | [c [r [r' [c' [E [Hc [E' Hc']]]]]]]];
    [reflexivity|].
  apply (strip_fixed _ c c' r r'); assumption.
Qed.

Lemma strip_blank (s : str) :
  Forall (fun c => is_space c = true) s -> strip s = [].
Proof.
  intros H. unfold strip.
  assert (E : lstrip s = []).
  { induction H as [|c s Hc Hs IH]; [reflexivity|]. simpl. rewrite Hc. exact IH. }
  rewrite E. reflexivity.
Qed.

Lemma startswith_app (p s : str) : startswith p (p ++ s) = true.
Proof.
  induction p as [|x p IH]; [destruct s; reflexivity|].
  simpl. rewrite Z.eqb_refl. exact IH.
Qed.

(** Whatever the command line, the environment and the terminal give, the
    URL that is analyzed starts with [http://] or [https://]; in particular
    it is not empty. *)
Theorem target_url_has_scheme
  (argv : list str) (env : option str) (typed : option str) :
  has_scheme (target_url argv env typed) = true
  /\ target_url argv env typed <> [].
Proof.
  assert (H : has_scheme (target_url argv env typed) = true).
  { unfold target_url.
    match goal with
    | |- has_scheme (if has_scheme ?u then _ else _) = true =>
      destruct (has_scheme u) eqn:E; [exact E|]
    end.
    unfold has_scheme at 1. rewrite startswith_app. apply orb_true_r. }
  split; [exact H|]. intros E. rewrite E in H. discriminate.
Qed.

(** With no command-line argument and no (or an empty) [TARGET_URL], input
    that is empty or all whitespace, or an interrupted prompt, selects the
    default URL; so does an empty command-line argument, whatever the
    environment holds. *)
Theorem target_url_default
  (prog : str) (env : option str) (line : str) :
  env = None \/ env = Some [] ->
  Forall (fun c => is_space c = true) line ->
  target_url [prog] env (Some line) = default_url
  /\ target_url [prog] env None = default_url
  /\ target_url [] env (Some line) = default_url
  /\ forall rest env' typed',
       target_url (prog :: [] :: rest) env' typed' = default_url.
Proof.
  intros Henv Hline. unfold target_url. rewrite (strip_blank line Hline).
  destruct Henv as [-> | ->]; repeat split.
Qed.

(** Whitespace around the URL typed at the prompt does not matter: the typed
    line and the stripped line select the same URL. *)
Theorem target_url_strips_input
  (argv : list str) (env : option str) (line : str) :
  target_url argv env (Some line) = target_url argv env (Some (strip line)).
Proof.
  unfold target_url. rewrite strip_idempotent. reflexivity.
Qed.

(* ================================================================== *)
(** ** Beyond the claims: what normalization keeps *)

Lemma concat_push (w : str) (ws : list str) :
  concat (push w ws) = w ++ concat ws.
Proof. destruct w; reflexivity. Qed.

Lemma split_from_concat (s : str) :
  filter (fun c => negb (is_space c)) s
  = fst (split_from s) ++ concat (snd (split_from s)).
Proof.
  induction s as [|c r IH]; [reflexivity|].
  cbn [filter split_from]. destruct (split_from r) as [w ws].
  cbn [fst snd] in IH. destruct (is_space c); cbn [negb fst snd].
  - rewrite concat_push. exact IH.
  - rewrite IH. reflexivity.
Qed.

Lemma concat_split (s : str) :
  concat (split s) = filter (fun c => negb (is_space c)) s.
Proof.
  rewrite split_from_concat. unfold split.
  destruct (split_from s) as [w ws]. apply concat_push.
Qed.

Lemma filter_nonspace_solid (w : str) :
  Forall nonspace w -> filter (fun c => negb (is_space c)) w = w.
Proof.
  induction 1 as [|c w Hc Hw IH]; [reflexivity|].
  cbn [filter]. unfold nonspace in Hc. rewrite Hc. cbn [negb]. rewrite IH.
  reflexivity.
Qed.

Lemma filter_join_space (ws : list str) :
  Forall solid ws ->
  filter (fun c => negb (is_space c)) (join_space ws) = concat ws.
Proof.
  induction 1 as [|w ws [Hne Hw] Hws IH]; [reflexivity|].
  destruct ws as [|v ws].
  - cbn [join_space concat]. rewrite app_nil_r. apply filter_nonspace_solid, Hw.
  - rewrite join_space_cons, filter_app. cbn [filter is_space].
    change (filter (fun c => negb (is_space c)) (32 :: join_space (v :: ws)))
      with (filter (fun c => negb (is_space c)) (join_space (v :: ws))).
    rewrite IH, (filter_nonspace_solid w Hw). reflexivity.
Qed.

Lemma clean_text_nonspace (t : str) :
  filter (fun c => negb (is_space c)) (clean_text t)
  = filter (fun c => negb (is_space c)) t.
Proof.
  unfold clean_text. rewrite filter_join_space by apply split_solid.
  apply concat_split.
Qed.

(** Normalization loses and reorders nothing but whitespace: the characters
    of the canonical text that are not whitespace are those of [self.text],
    in order; so [chinese_chars] is the number of ideographs of [self.text]
    itself. *)
Theorem count_words_keeps_characters (self : WebContentAnalyzer Soup) :
  filter (fun c => negb (is_space c)) (clean_text (text self))
  = filter (fun c => negb (is_space c)) (text self)
  /\ exists wc,
       count_words self = (Returns wc, self)
       /\ chinese_chars wc = length (filter in_cjk (text self)).
Proof.
  split; [apply clean_text_nonspace|].
  eexists. split; [apply count_words_run|].
  cbn [chinese_chars]. unfold findall_class. rewrite length_map.
  rewrite <- (filter_absorb in_cjk (fun c => negb (is_space c)) (clean_text (text self))).
  - rewrite clean_text_nonspace. rewrite filter_absorb; [reflexivity|].
    intros c Hc. rewrite (cjk_nonspace c Hc). reflexivity.
  - intros c Hc. rewrite (cjk_nonspace c Hc). reflexivity.
Qed.

Lemma join_push_length (w : str) (ws : list str) :
  (length (join_space (push w ws))
   <= length w + match ws with
                 | [] => 0
                 | _ :: _ => 1 + length (join_space ws)
                 end)%nat.
Proof.
  destruct w as [|c w]; cbn [push].
  - destruct ws; simpl; lia.
  - destruct ws as [|v ws].
    + simpl. lia.
    + rewrite join_space_cons, length_app. cbn [length]. lia.
Qed.

Lemma split_from_length (s : str) :
  (length (fst (split_from s))
   + match snd (split_from s) with
     | [] => 0
     | _ :: _ => 1 + length (join_space (snd (split_from s)))
     end <= length s)%nat.
Proof.
  induction s as [|c r IH]; [simpl; lia|].
  cbn [split_from]. destruct (split_from r) as [w ws]. cbn [fst snd] in IH.
  destruct (is_space c); cbn [fst snd length].
  - pose proof (join_push_length w ws) as H.
    assert (G : (match push w ws with
                 | [] => 0
                 | _ :: _ => 1 + length (join_space (push w ws))
                 end <= 1 + length (join_space (push w ws)))%nat)
      by (destruct (push w ws); lia).
    lia.
  - lia.
Qed.

(** Normalization never lengthens the text: [total_chars] is at most
    [len(self.text)]. *)
Theorem count_words_total_bounded (self : WebContentAnalyzer Soup) :
  exists wc,
    count_words self = (Returns wc, self)
    /\ (total_chars wc <= length (text self))%nat
    /\ (chinese_chars wc <= total_chars wc)%nat.
Proof.
  eexists. split; [apply count_words_run|].
  cbn [total_chars chinese_chars]. split.
  - unfold clean_text, split.
    pose proof (split_from_length (text self)) as H.
    destruct (split_from (text self)) as [w ws]. cbn [fst snd] in H.
    pose proof (join_push_length w ws). lia.
  - unfold findall_class. rewrite length_map. apply filter_length_le.
Qed.

(* ================================================================== *)
(** ** Beyond the claims: the Latin tokens *)

Lemma span_all (cls : char -> bool) (s : str) :
  forallb cls (span cls s) = true.
Proof.
  induction s as [|c r IH]; [reflexivity|].
  simpl. destruct (cls c) eqn:E; [|reflexivity].
  simpl. rewrite E. exact IH.
Qed.

(** The scan returns the runs that open, in order. *)
Lemma scan_words_list (k : nat) (s : str) (prev : option char) (skip : nat) :
  (1 <= k)%nat ->
  (skip <= length (span is_ascii_letter s))%nat ->
  skip = O \/ is_word_at isalnum prev = true ->
  scan_words isalnum k prev s skip = words_from k (nonword isalnum) prev s.
Proof.
  intros Hk. revert prev skip.
  induction s as [|c r IH]; intros prev skip Hskip Hprev; [reflexivity|].
  cbn [scan_words words_from]. destruct skip as [|n].
  - rewrite try_word_spec by exact Hk.
    destruct (edge (nonword isalnum) prev && run_starts (nonword isalnum) (c :: r)
              && (k <=? length (span is_ascii_letter (c :: r)))%nat) eqn:Eo.
    + apply andb_true_iff in Eo as [Eo _].
      apply andb_true_iff in Eo as [_ Est]. cbn [run_starts] in Est.
      apply andb_true_iff in Est as [Ec _].
      cbn [span]. rewrite Ec. cbn [length app Nat.sub]. f_equal.
      rewrite Nat.sub_0_r.
      apply IH; [lia | right; cbn [is_word_at]; apply letter_is_word, Ec].
    + cbn [app]. apply IH; [lia | left; reflexivity].
  - destruct Hprev as [Hprev | Hprev]; [discriminate|].
    rewrite edge_nonword, Hprev. cbn [negb andb app].
    cbn [span] in Hskip. destruct (is_ascii_letter c) eqn:Ec;
      cbn [length] in Hskip; [|lia].
    apply IH; [lia | right; cbn [is_word_at]; apply letter_is_word, Ec].
Qed.

Lemma findall_words_from (k : nat) (s : str) :
  (1 <= k)%nat ->
  findall_words isalnum k s = words_from k (nonword isalnum) None s.
Proof.
  intros Hk. unfold findall_words.
  apply scan_words_list; [exact Hk | lia | left; reflexivity].
Qed.

Lemma words_from_filter (k : nat) (outside : char -> bool)
  (prev : option char) (s : str) :
  words_from k outside prev s
  = filter (fun m => (k <=? length m)%nat) (words_from 1 outside prev s).
Proof.
  revert prev. induction s as [|c r IH]; intros prev; [reflexivity|].
  cbn [words_from]. rewrite filter_app, <- IH. f_equal.
  destruct (edge outside prev && run_starts outside (c :: r)) eqn:Ea;
    cbn [andb]; [|reflexivity].
  apply andb_true_iff in Ea as [_ Est]. cbn [run_starts] in Est.
  apply andb_true_iff in Est as [Ec _].
  cbn [span]. rewrite Ec. cbn [length Nat.leb filter].
  destruct (k <=? S (length (span is_ascii_letter r)))%nat; reflexivity.
Qed.

Lemma words_from_shape (k : nat) (outside : char -> bool)
  (prev : option char) (s : str) (m : str) :
  In m (words_from k outside prev s) ->
  forallb is_ascii_letter m = true /\ (k <= length m)%nat.
Proof.
  revert prev. induction s as [|c r IH]; intros prev; [contradiction|].
  cbn [words_from]. intros H. apply in_app_or in H as [H | H]; [|apply (IH _ H)].
  destruct (edge outside prev && run_starts outside (c :: r)); cbn [andb] in H;
    [|contradiction].
  destruct (Nat.leb_spec k (length (span is_ascii_letter (c :: r))));
    [|contradiction].
  destruct H as [<- | []]. split; [apply span_all | assumption].
Qed.

(** The two patterns on one text: the keyword pattern (line 63, at least
    three letters) finds exactly those matches of the word-count pattern
    (line 52) that are at least three letters long, in the same order. *)
Theorem findall_words_min_length (s : str) :
  findall_words isalnum 3 s
  = filter (fun m => (3 <=? length m)%nat) (findall_words isalnum 1 s).
Proof.
  rewrite !findall_words_from by lia. apply words_from_filter.
Qed.

Lemma letter_not_cjk (c : char) :
  is_ascii_letter c = true -> in_cjk c = false.
Proof.
  unfold is_ascii_letter, in_cjk. intros H.
  destruct (Z.leb_spec 19968 c); [|reflexivity].
  destruct (Z.leb_spec 97 c); destruct (Z.leb_spec c 122);
    destruct (Z.leb_spec 65 c); destruct (Z.leb_spec c 90);
    cbn in H; try discriminate; lia.
Qed.

Lemma mem_starts_in (cls : char -> bool) (w : str) (set : list str) :
  forallb (starts_in cls) set = true -> mem w set = true ->
  starts_in cls w = true.
Proof.
  intros Hall Hw. apply mem_In in Hw.
  rewrite forallb_forall in Hall. apply Hall, Hw.
Qed.

(** Every word [extract_keywords] reports is in neither stop-word list, and
    is either a run of at least three ASCII letters or a segment that starts
    with an ideograph. *)
Theorem extract_keywords_words
  (top_n : Z) (self : WebContentAnalyzer Soup) :
  exists out,
    extract_keywords top_n self = (Returns out, self)
    /\ forall (w : str) (c : nat),
         In (w, c) out ->
         mem w en_stop_words = false
         /\ mem w zh_stop_words = false
         /\ ((forallb is_ascii_letter w = true /\ (3 <= length w)%nat)
             \/ starts_in in_cjk w = true).
Proof.
  eexists. split; [apply extract_keywords_run|].
  intros w c Hin. apply most_common_incl, Counter_In in Hin.
  destruct Hin as [_ [_ Hin]]. unfold all_words in Hin.
  apply in_app_or in Hin as [Hen | Hzh].
  - unfold filtered_en_words in Hen. apply filter_In in Hen as [Hw Hstop].
    apply negb_true_iff in Hstop.
    rewrite findall_words_from in Hw by lia.
    apply words_from_shape in Hw as [Hall Hlen].
    split; [exact Hstop|]. split; [|left; split; assumption].
    destruct (mem w zh_stop_words) eqn:E; [|reflexivity].
    apply (mem_starts_in in_cjk) in E; [|reflexivity].
    destruct w as [|x w]; [discriminate|]. cbn in E, Hall.
    apply andb_true_iff in Hall as [Hx _].
    rewrite (letter_not_cjk x Hx) in E. discriminate.
  - unfold filtered_zh_words in Hzh. apply filter_In in Hzh as [_ Hk].
    apply zh_keep_iff in Hk as [Hstop [x [r [-> Hx]]]].
    split; [|split; [exact Hstop | right; exact Hx]].
    destruct (mem (x :: r) en_stop_words) eqn:E; [|reflexivity].
    apply (mem_starts_in is_ascii_letter) in E; [|reflexivity].
    cbn in E. rewrite (letter_not_cjk x E) in Hx. discriminate.
Qed.

(* ================================================================== *)
(** ** Beyond the claims: the ranking *)

(** The ranking for a smaller [top_n] is the beginning of the ranking for a
    larger one. *)
Theorem extract_keywords_prefix
  (n m : Z) (self : WebContentAnalyzer Soup) :
  n <= m ->
  exists out,
    extract_keywords m self = (Returns out, self)
    /\ extract_keywords n self = (Returns (firstn (Z.to_nat n) out), self).
Proof.
  intros Hnm. eexists. split; [apply extract_keywords_run|].
  rewrite extract_keywords_run, !most_common_eq.
  destruct (Z.leb_spec n 0) as [Hn|Hn].
  - replace (Z.to_nat n) with O by lia. reflexivity.
  - destruct (Z.leb_spec m 0); [lia|].
    rewrite firstn_firstn. replace (Nat.min (Z.to_nat n) (Z.to_nat m))
      with (Z.to_nat n) by lia. reflexivity.
Qed.

Lemma sum_incr (w : str) (c : counter) :
  list_sum (map snd (incr w c)) = S (list_sum (map snd c)).
Proof.
  induction c as [|[k v] c IH]; [reflexivity|].
  cbn [incr]. destruct (str_eqb k w); cbn [map snd list_sum fold_right].
  - reflexivity.
  - fold (list_sum (map snd (incr w c))). fold (list_sum (map snd c)).
    rewrite IH. lia.
Qed.

Lemma sum_fold (l : list str) (c : counter) :
  list_sum (map snd (fold_left (fun c w => incr w c) l c))
  = (list_sum (map snd c) + length l)%nat.
Proof.
  revert c. induction l as [|x r IH]; intros c; [simpl; lia|].
  cbn [fold_left length]. rewrite IH, sum_incr. lia.
Qed.

Lemma sum_Counter (l : list str) : list_sum (map snd (Counter l)) = length l.
Proof. unfold Counter. rewrite sum_fold. reflexivity. Qed.

Lemma list_sum_perm (a b : list nat) :
  Permutation a b -> list_sum a = list_sum b.
Proof.
  induction 1; simpl; try lia.
Qed.

Lemma list_sum_firstn (n : nat) (l : list nat) :
  (list_sum (firstn n l) <= list_sum l)%nat.
Proof.
  rewrite <- (firstn_skipn n l) at 2. rewrite list_sum_app. lia.
Qed.

(** The counts reported never add up to more than the number of filtered
    tokens, and they add up to exactly that number when [top_n] is at least
    the number of distinct tokens. *)
Theorem extract_keywords_counts_sum
  (top_n : Z) (self : WebContentAnalyzer Soup) :
  exists out,
    extract_keywords top_n self = (Returns out, self)
    /\ (list_sum (map snd out) <= length (all_words (text self)))%nat
    /\ (Z.of_nat (length (nodup str_eq_dec (all_words (text self)))) <= top_n ->
        list_sum (map snd out) = length (all_words (text self))).
Proof.
  eexists. split; [apply extract_keywords_run|].
  rewrite most_common_eq.
  assert (Hsorted : list_sum (map snd (sorted_desc (Counter (all_words (text self)))))
                    = length (all_words (text self))).
  { rewrite <- sum_Counter. apply list_sum_perm, Permutation_map, sorted_desc_perm. }
  destruct (Z.leb_spec top_n 0) as [Hn|Hn]; split.
  - simpl. lia.
  - intros Hd. rewrite <- length_Counter in Hd.
    destruct (Counter (all_words (text self))) eqn:E; [|cbn [length] in Hd; lia].
    rewrite <- sum_Counter, E. reflexivity.
  - rewrite <- firstn_map, <- Hsorted. apply list_sum_firstn.
  - intros Hd. rewrite <- length_Counter in Hd.
    rewrite firstn_all2; [exact Hsorted|].
    rewrite (Permutation_length (sorted_desc_perm _)). lia.
Qed.

(* ================================================================== *)
(** ** Beyond the claims: [get_title], [count_links], [count_images] *)

Lemma get_title_frame (self : WebContentAnalyzer Soup) :
  snd (get_title self) = self.
Proof.
  unfold get_title, bind, self_soup, ret, call_out.
  destruct (soup self) as [sp|]; [|reflexivity].
  destruct (find_title page sp) as [title|]; [|reflexivity].
  destruct (tag_string page title); reflexivity.
Qed.

Lemma count_links_frame (self : WebContentAnalyzer Soup) :
  snd (count_links self) = self.
Proof.
  unfold count_links, bind, self_soup, self_url, ret, call_out.
  destruct (soup self) as [sp|]; [|reflexivity].
  destruct (netloc web (url self)) as [b|e]; [|reflexivity].
  destruct (sort_links (url self) b (find_links page sp) [] []); reflexivity.
Qed.

Lemma count_images_frame (self : WebContentAnalyzer Soup) :
  snd (count_images self) = self.
Proof.
  unfold count_images, bind, self_soup, ret.
  destruct (soup self); reflexivity.
Qed.

(** [get_title] leaves the analyzer as it is; it returns [None] exactly when
    no page is held; and a title it returns has no leading or trailing
    whitespace. *)
Theorem get_title_stripped (self : WebContentAnalyzer Soup) :
  snd (get_title self) = self
  /\ (fst (get_title self) = Returns None <-> soup self = None)
  /\ forall t, fst (get_title self) = Returns (Some t) -> strip t = t.
Proof.
  split; [apply get_title_frame|].
  unfold get_title, bind, self_soup, ret, call_out.
  destruct (soup self) as [sp|]; cbn [fst].
  - destruct (find_title page sp) as [title|]; cbn [fst].
    + destruct (tag_string page title) as [s|]; cbn [fst].
      * split; [split; discriminate|].
        intros t E. injection E as <-. apply strip_idempotent.
      * split; [split; discriminate | discriminate].
    + split; [split; discriminate|].
      intros t E. injection E as <-. reflexivity.
  - split; [tauto | discriminate].
Qed.

Lemma sort_links_count (u b : str) (links : list Tag)
  (il el il' el' : list str) :
  sort_links u b links il el = Returns (il', el') ->
  (length il' + length el' + length (filter (unplaced u b) links)
   = length il + length el + length links)%nat.
Proof.
  revert il el. induction links as [|link rest IH]; intros il el H.
  - injection H as <- <-. simpl. lia.
  - cbn [sort_links] in H. cbn [filter]. unfold unplaced at 1, resolve.
    destruct (urljoin web u (href page link)) as [full|e]; [|discriminate].
    destruct (netloc web full) as [d|e]; [|discriminate].
    destruct (str_eqb d b) eqn:Edb.
    + apply IH in H. rewrite length_app in H. cbn [length] in H.
      apply str_eqb_eq in Edb. subst b.
      destruct d; [rewrite str_eqb_refl|]; cbn [negb length]; lia.
    + destruct d as [|x d].
      * apply IH in H. rewrite Edb. cbn [negb length]. lia.
      * apply IH in H. rewrite length_app in H. cbn [length] in H |- *. lia.
Qed.

(** When [count_links] returns counts, [total] is the number of links of the
    page, and it is [internal] plus [external] plus the number of links whose
    domain is empty and is not the page's own ([mailto:] links and the like):
    these are counted in [total] only. *)
Theorem count_links_partition
  (self : WebContentAnalyzer Soup) (lc : link_count) (o : WebContentAnalyzer Soup) :
  count_links self = (Returns (Some lc), o) ->
  o = self
  /\ exists sp base,
       soup self = Some sp
       /\ netloc web (url self) = Returns base
       /\ total lc = length (find_links page sp)
       /\ (total lc
           = internal lc + external lc
             + length (filter (unplaced (url self) base) (find_links page sp)))%nat
       /\ (internal lc + external lc <= total lc)%nat.
Proof.
  intros H.
  assert (Ho : o = self).
  { rewrite <- (count_links_frame self), H. reflexivity. }
  split; [exact Ho|]. clear Ho. revert H.
  unfold count_links, bind, self_soup, self_url, ret, call_out.
  destruct (soup self) as [sp|]; [|discriminate].
  destruct (netloc web (url self)) as [b|e]; [|discriminate].
  destruct (sort_links (url self) b (find_links page sp) [] [])
    as [[il el]|e] eqn:Es; [|discriminate].
  intros H. injection H as <- _. exists sp, b.
  apply sort_links_count in Es. cbn [total internal external fst snd length] in *.
  repeat split; lia.
Qed.

Lemma sort_links_returns (u b : str) (links : list Tag) (il el : list str) :
  (exists r, sort_links u b links il el = Returns r)
  <-> Forall (fun link => exists d, resolve u link = Returns d) links.
Proof.
  clear isalnum lower jieba.
  revert il el. induction links as [|link rest IH]; intros il el.
  - split; [constructor | eexists; reflexivity].
  - cbn [sort_links]. rewrite Forall_cons_iff. unfold resolve at 1.
    destruct (urljoin web u (href page link)) as [full|e].
    + destruct (netloc web full) as [d|e].
      * destruct (str_eqb d b); [|destruct d]; rewrite IH;
          (split; [intros H; split; [eexists; reflexivity | exact H] | tauto]).
      * split; [intros [r H]; discriminate | intros [[d H] _]; discriminate].
    + split; [intros [r H]; discriminate | intros [[d H] _]; discriminate].
Qed.

(** [count_links] raises exactly when a page is held and the URL of the
    analyzer or one of the links of the page cannot be parsed: one malformed
    [href] is enough. *)
Theorem count_links_returns (self : WebContentAnalyzer Soup) :
  (exists r, count_links self = (Returns r, self))
  <-> (soup self = None
       \/ exists sp,
            soup self = Some sp
            /\ (exists base, netloc web (url self) = Returns base)
            /\ Forall (fun link => exists d, resolve (url self) link = Returns d)
                 (find_links page sp)).
Proof.
  clear isalnum lower jieba.
  unfold count_links, bind, self_soup, self_url, ret, call_out.
  destruct (soup self) as [sp|].
  - destruct (netloc web (url self)) as [b|e].
    + pose proof (sort_links_returns (url self) b (find_links page sp) [] []) as Hs.
      destruct (sort_links (url self) b (find_links page sp) [] []) as [r|e].
      * split; [|intros _; eexists; reflexivity].
        intros _. right. exists sp. split; [reflexivity|].
        split; [eexists; reflexivity|]. apply Hs. eexists; reflexivity.
      * split; [intros [r H]; discriminate|].
        intros [H | [sp' [E [_ Hall]]]]; [discriminate|].
        injection E as <-. apply Hs in Hall. destruct Hall as [r H]. discriminate.
    + split; [intros [r H]; discriminate|].
      intros [H | [sp' [_ [[base H] _]]]]; discriminate.
  - split; [intros _; left; reflexivity | intros _; eexists; reflexivity].
Qed.

(* ================================================================== *)
(** ** Beyond the claims: [fetch_content], [analyze] and sessions *)

Lemma lift_eq {A : Type} (m : M A) (w : world) :
  lift m w = (fst (m (obj w)), {| obj := snd (m (obj w)); stdout := stdout w |}).
Proof. unfold lift. destruct (m (obj w)); reflexivity. Qed.

Lemma only_prints_pret {A : Type} (a : A) : only_prints (pret a).
Proof. intros w. split; [reflexivity|]. exists []. cbn. rewrite app_nil_r. reflexivity. Qed.

Lemma only_prints_print_all (lines : list str) : only_prints (print_all lines).
Proof. intros w. split; [reflexivity|]. exists lines. reflexivity. Qed.

Lemma only_prints_lift {A : Type} (m : M A) :
  (forall self, snd (m self) = self) -> only_prints (lift m).
Proof.
  intros H w. rewrite lift_eq. cbn [snd obj stdout]. split; [apply H|].
  exists []. rewrite app_nil_r. reflexivity.
Qed.

Lemma only_prints_pbind {A B : Type} (m : P A) (k : A -> P B) :
  only_prints m -> (forall a, only_prints (k a)) -> only_prints (pbind m k).
Proof.
  intros Hm Hk w. unfold pbind. specialize (Hm w).
  destruct (m w) as [[a|e] w'] eqn:E; cbn [snd] in Hm |- *.
  - destruct Hm as [Ho [l1 Hs]]. destruct (Hk a w') as [Ho' [l2 Hs']].
    split; [congruence|]. exists (l1 ++ l2). rewrite Hs', Hs, app_assoc. reflexivity.
  - exact Hm.
Qed.

Lemma count_words_frame (self : WebContentAnalyzer Soup) :
  snd (count_words self) = self.
Proof. rewrite count_words_run. reflexivity. Qed.

Lemma extract_keywords_frame (n : Z) (self : WebContentAnalyzer Soup) :
  snd (extract_keywords n self) = self.
Proof. rewrite extract_keywords_run. reflexivity. Qed.

Lemma analyze_effect (w : world) :
  exists lines,
    snd (analyze w)
    = {| obj := obj (snd (fetch_content w)); stdout := stdout w ++ lines |}.
Proof.
  unfold analyze. unfold pbind at 1. rewrite lift_eq.
  cbn [self_url fst snd obj stdout]. unfold pbind at 1.
  cbn [print print_all obj stdout]. unfold pbind at 1.
  unfold fetch_content. cbn [obj stdout].
  destruct (http_get web (url (obj w))) as [message|content]; cbn [negb snd obj stdout].
  - eexists. cbn [pret snd]. rewrite <- app_assoc. reflexivity.
  - match goal with
    | |- exists lines, snd (?rest ?w1) = _ =>
      assert (Hrest : only_prints rest);
        [| destruct (Hrest w1) as [Ho [lines Hs]];
           destruct (snd (rest w1)) as [o2 s2] ]
    end.
    + repeat first
        [ apply only_prints_pbind; [|intros ?]
        | apply only_prints_print_all
        | apply only_prints_pret
        | apply only_prints_lift; intros ?;
          first [ apply get_title_frame | apply count_words_frame
                | apply extract_keywords_frame | apply count_links_frame
                | apply count_images_frame ]
        | match goal with |- only_prints (match ?x with _ => _ end) => destruct x end ].
    + cbn [obj stdout] in Ho, Hs. subst o2 s2.
      eexists. rewrite <- app_assoc. reflexivity.
Qed.




Lemma fetched_in_step (self : WebContentAnalyzer Soup) (content : str) :
  url (fetched self content) = url self /\ in_step (fetched self content).
Proof. split; reflexivity. Qed.

Lemma fetch_content_keeps (w : world) :
  url (obj (snd (fetch_content w))) = url (obj w)
  /\ (in_step (obj w) -> in_step (obj (snd (fetch_content w)))).
Proof.
  clear isalnum lower jieba.
  unfold fetch_content.
  destruct (http_get web (url (obj w))) as [message|content]; cbn [snd obj].
  - tauto.
  - split; [reflexivity | intros _; reflexivity].
Qed.

Lemma perform_keeps (m : method) (w : world) :
  url (obj (perform m w)) = url (obj w)
  /\ (in_step (obj w) -> in_step (obj (perform m w))).
Proof.
  destruct m; cbn [perform];
    try (rewrite lift_eq; cbn [snd obj];
         first [ rewrite get_title_frame | rewrite count_words_frame
               | rewrite extract_keywords_frame | rewrite count_links_frame
               | rewrite count_images_frame ]; tauto).
  - apply fetch_content_keeps.
  - destruct (analyze_effect w) as [lines ->]. cbn [obj].
    apply fetch_content_keeps.
Qed.

Lemma session_keeps (ms : list method) (w : world) :
  url (obj (session ms w)) = url (obj w)
  /\ (in_step (obj w) -> in_step (obj (session ms w))).
Proof.
  revert w. induction ms as [|m ms IH]; intros w; [split; auto|].
  cbn [session fold_left]. fold (session ms (perform m w)).
  destruct (IH (perform m w)) as [Hu Hi]. destruct (perform_keeps m w) as [Hu' Hi'].
  split; [congruence | auto].
Qed.

(** Through any sequence of calls of the methods on a new analyzer, whether
    they return or raise, [url] stays what the constructor was given, and
    [text] is the text of the page [soup] holds, or empty when it holds none:
    a failed fetch never leaves a half-updated analyzer. *)
Theorem session_invariant (u : str) (ms : list method) :
  url (obj (session ms (fresh u))) = u
  /\ in_step (obj (session ms (fresh u))).
Proof.
  destruct (session_keeps ms (fresh u)) as [Hu Hi].
  split; [exact Hu | apply Hi; reflexivity].
Qed.

(** As long as no page is held (before the first fetch, or when every fetch so
    far has failed), none of the read-only methods raises: [get_title] and
    [count_links] return [None], [count_images] returns [0] and [count_words]
    returns all-zero counts. *)
Theorem no_page_results (u : str) (ms : list method) :
  soup (obj (session ms (fresh u))) = None ->
  get_title (obj (session ms (fresh u)))
  = (Returns None, obj (session ms (fresh u)))
  /\ count_links (obj (session ms (fresh u)))
     = (Returns None, obj (session ms (fresh u)))
  /\ count_images (obj (session ms (fresh u)))
     = (Returns O, obj (session ms (fresh u)))
  /\ count_words (obj (session ms (fresh u)))
     = (Returns {| chinese_chars := 0; english_words := 0; total_chars := 0 |},
        obj (session ms (fresh u))).
Proof.
  intros Hs. destruct (session_keeps ms (fresh u)) as [_ Hi].
  specialize (Hi eq_refl). unfold in_step in Hi. rewrite Hs in Hi.
  unfold get_title, count_links, count_images, bind, self_soup, ret.
  rewrite Hs. repeat split. rewrite count_words_run, Hi. reflexivity.
Qed.

(** Whether [analyze] returns or raises, it leaves the analyzer as
    [fetch_content] alone would, and it only adds to what has been printed. *)
Theorem analyze_changes_as_fetch (w : world) :
  obj (snd (analyze w)) = obj (snd (fetch_content w))
  /\ url (obj (snd (analyze w))) = url (obj w)
  /\ exists lines, stdout (snd (analyze w)) = stdout w ++ lines.
Proof.
  destruct (analyze_effect w) as [lines E]. rewrite E. cbn [obj stdout].
  split; [reflexivity|]. split; [apply fetch_content_keeps | exists lines; reflexivity].
Qed.

(** When the fetch fails, [analyze] returns after two calls of [print], the
    heading and the error message: no analysis runs and the analyzer is
    unchanged. *)
Theorem analyze_fetch_failed (w : world) (message : str) :
  http_get web (url (obj w)) = Failed message ->
  analyze w
  = (Returns tt,
     {| obj := obj w;
        stdout := stdout w
                  ++ [ 10 :: utf8 "🔍 正在分析: " ++ url (obj w) ++ [10];
                       utf8 "❌ 無法抓取網頁: " ++ message ] |}).
Proof.
  intros Hget. unfold analyze. unfold pbind at 1. rewrite lift_eq.
  cbn [self_url fst snd obj stdout]. unfold pbind at 1.
  cbn [print print_all obj stdout]. unfold pbind at 1.
  unfold fetch_content at 1. cbn [obj stdout]. rewrite Hget. cbn [negb pret].
  rewrite <- app_assoc. reflexivity.
Qed.





End Analyzer.

(** C5: without the segmentation module, [extract_keywords] returns: the
    [ImportError] is handled, the Chinese token sequence is empty, and the
    output is the ranking of the filtered Latin tokens alone. *)
Theorem extract_keywords_without_jieba
  (Soup : Type) (isalnum : char -> bool) (lower : str -> str)
  (top_n : Z) (self : WebContentAnalyzer Soup) :
  import_jieba Soup None self = (Raises ImportError, self)
  /\ zh_words Soup None self = (Returns [], self)
  /\ extract_keywords Soup isalnum lower None top_n self
     = (Returns (most_common top_n
                   (Counter (filtered_en_words isalnum lower (text self)))),
        self).
Proof.
  repeat split. rewrite extract_keywords_run.
  unfold all_words, segments. cbn [filtered_zh_words filter].
  rewrite app_nil_r. reflexivity.
Qed.

(* ================================================================== *)
(** ** The claims on a page *)

Example utf8_literals :
  utf8 "cat" = [99; 97; 116] /\ utf8 "及其" = [21450; 20854]
  /\ utf8 "卡拉OK" = [21345; 25289; 79; 75].
Proof. repeat split. Qed.

Example clean_text_sample :
  clean_text (utf8 "  The   cat
 and	the dog.  ") = utf8 "The cat and the dog.".
Proof. reflexivity. Qed.

Example count_words_sample :
  count_words unit cjk_isalnum sample_page
  = (Returns {| chinese_chars := 10; english_words := 5; total_chars := 37 |},
     sample_page).
Proof. reflexivity. Qed.

Example extract_keywords_sample :
  extract_keywords unit cjk_isalnum ascii_lower (Some word_segmenter) 5 sample_page
  = (Returns [ (utf8 "cat", 1%nat); (utf8 "dog", 1%nat); (utf8 "貓", 1%nat);
               (utf8 "狗", 1%nat); (utf8 "都是", 1%nat) ],
     sample_page).
Proof. reflexivity. Qed.

Example extract_keywords_stop_words_only :
  extract_keywords unit cjk_isalnum ascii_lower None 10 (page_of (utf8 "the and for"))
  = (Returns [], page_of (utf8 "the and for")).
Proof. reflexivity. Qed.

(** C2 on the sample page: ["cat"] and ["貓"] both occur once, ["cat"] first,
    and ["cat"] is ranked first. *)
Lemma extract_keywords_ties_first_seen_witness :
  exists out,
    extract_keywords unit cjk_isalnum ascii_lower (Some word_segmenter) 5 sample_page
    = (Returns out, sample_page)
    /\ nth_error out 0 = Some (utf8 "cat", 1%nat)
    /\ nth_error out 2 = Some (utf8 "貓", 1%nat)
    /\ (first_index (utf8 "cat")
          (all_words cjk_isalnum ascii_lower (Some word_segmenter) (text sample_page))
        < first_index (utf8 "貓")
            (all_words cjk_isalnum ascii_lower (Some word_segmenter) (text sample_page)))%nat
    /\ (0 < 2)%nat.
Proof.
  destruct (extract_keywords_ties_first_seen unit cjk_isalnum ascii_lower
              (Some word_segmenter) 5 sample_page) as [out [Hrun Hord]].
  exists out.
  assert (H0 : nth_error out 0 = Some (utf8 "cat", 1%nat)).
  { rewrite extract_keywords_sample in Hrun. injection Hrun as <-. reflexivity. }
  assert (H2 : nth_error out 2 = Some (utf8 "貓", 1%nat)).
  { rewrite extract_keywords_sample in Hrun. injection Hrun as <-. reflexivity. }
  assert (Hf : (first_index (utf8 "cat")
                  (all_words cjk_isalnum ascii_lower (Some word_segmenter)
                     (text sample_page))
                < first_index (utf8 "貓")
                    (all_words cjk_isalnum ascii_lower (Some word_segmenter)
                       (text sample_page)))%nat).
  { vm_compute. repeat constructor. }
  exact (conj Hrun (conj H0 (conj H2 (conj Hf
           (Hord 0%nat 2%nat (utf8 "cat") (utf8 "貓") 1%nat H0 H2 Hf))))).
Defined.

(** C3 on the sample page, with [top_n = 5] of seven distinct tokens. *)
Lemma extract_keywords_length_sorted_witness :
  0 < 5
  /\ exists out,
       extract_keywords unit cjk_isalnum ascii_lower (Some word_segmenter) 5 sample_page
       = (Returns out, sample_page)
       /\ length out
          = Nat.min (Z.to_nat 5)
              (length (nodup str_eq_dec
                         (all_words cjk_isalnum ascii_lower (Some word_segmenter)
                            (text sample_page))))
       /\ StronglySorted ge (map snd out).
Proof.
  split; [lia|].
  apply (extract_keywords_length_sorted unit cjk_isalnum ascii_lower
           (Some word_segmenter) 5 sample_page).
  lia.
Defined.

(** C4 as stated fails on ["a1"]: [a] is a maximal run of letters between the
    start of the text and a character that is no letter, and [\b] does not
    hold between [a] and the digit.  The same happens to ["hello"] in front
    of an ideograph. *)
Lemma english_words_misses_run_before_digit :
  count_words unit cjk_isalnum (page_of (utf8 "a1"))
  = (Returns {| chinese_chars := 0; english_words := 0; total_chars := 2 |},
     page_of (utf8 "a1"))
  /\ count_runs nonletter (clean_text (utf8 "a1")) = 1%nat
  /\ count_words unit cjk_isalnum (page_of (utf8 "hello世界"))
     = (Returns {| chinese_chars := 2; english_words := 0; total_chars := 7 |},
        page_of (utf8 "hello世界"))
  /\ count_runs nonletter (clean_text (utf8 "hello世界")) = 1%nat.
Proof. repeat split. Qed.

(** C6 on the sample page, with [top_n = -1]. *)
Lemma extract_keywords_nonpositive_witness :
  -1 <= 0
  /\ extract_keywords unit cjk_isalnum ascii_lower (Some word_segmenter) (-1) sample_page
     = (Returns [], sample_page).
Proof.
  split; [lia|].
  apply (extract_keywords_nonpositive unit cjk_isalnum ascii_lower
           (Some word_segmenter) (-1) sample_page).
  lia.
Defined.

(* ================================================================== *)
(** ** Beyond the claims, on a page *)

Example formats :
  map fmt_thousands [0; 999; 1000; 4321]%nat
  = map utf8 ["0"; "999"; "1,000"; "4,321"]%string
  /\ map fmt_2d [5; 12; 123]%nat = map utf8 [" 5"; "12"; "123"]%string
  /\ fmt_15s (utf8 "cat") = utf8 "cat            "
  /\ fmt_15s (utf8 "abcdefghijklmnopq") = utf8 "abcdefghijklmnopq".
Proof. repeat split. Qed.

Example target_url_samples :
  target_url [utf8 "main.py"; utf8 "example.org"] (Some (utf8 "http://env.test")) None
  = utf8 "https://example.org"
  /\ target_url [utf8 "main.py"] (Some (utf8 "http://env.test")) (Some (utf8 "typed.test"))
     = utf8 "http://env.test"
  /\ target_url [utf8 "main.py"] None (Some (utf8 "  typed.test "))
     = utf8 "https://typed.test".
Proof. repeat split. Qed.

(** [target_url_default] on a prompt answered with three spaces. *)
Lemma target_url_default_witness :
  target_url [utf8 "main.py"] None (Some (utf8 "   ")) = default_url.
Proof.
  apply (target_url_default (utf8 "main.py") None (utf8 "   ")).
  - left. reflexivity.
  - repeat constructor.
Defined.

(** [extract_keywords_prefix] on the sample page, with 2 and 5. *)
Lemma extract_keywords_prefix_witness :
  2 <= 5
  /\ exists out,
       extract_keywords unit cjk_isalnum ascii_lower (Some word_segmenter) 5 sample_page
       = (Returns out, sample_page)
       /\ extract_keywords unit cjk_isalnum ascii_lower (Some word_segmenter) 2 sample_page
          = (Returns (firstn (Z.to_nat 2) out), sample_page).
Proof.
  split; [lia|].
  apply (extract_keywords_prefix unit cjk_isalnum ascii_lower
           (Some word_segmenter) 2 5 sample_page).
  lia.
Defined.

(** [count_links_partition] on the page fetched from [https://example.org]:
    four links, two internal, one external and one [mailto:]. *)
Lemma count_links_partition_witness :
  count_links toy_soup (option str) toy_bs4 toy_net
    (fetched toy_soup (option str) toy_bs4 (init (utf8 "https://example.org"))
       (utf8 "The cat and the dog. https://example.org/a https://other.test/b"))
  = (Returns (Some {| total := 4; internal := 2; external := 1 |}),
     fetched toy_soup (option str) toy_bs4 (init (utf8 "https://example.org"))
       (utf8 "The cat and the dog. https://example.org/a https://other.test/b"))
  /\ (2 + 1 <= 4)%nat.
Proof.
  assert (H : count_links toy_soup (option str) toy_bs4 toy_net
                (fetched toy_soup (option str) toy_bs4 (init (utf8 "https://example.org"))
                   (utf8 "The cat and the dog. https://example.org/a https://other.test/b"))
              = (Returns (Some {| total := 4; internal := 2; external := 1 |}),
                 fetched toy_soup (option str) toy_bs4 (init (utf8 "https://example.org"))
                   (utf8 "The cat and the dog. https://example.org/a https://other.test/b")))
    by reflexivity.
  destruct (count_links_partition toy_soup (option str) toy_bs4 toy_net _ _ _ H)
    as [_ [sp [base [_ [_ [_ [_ Hle]]]]]]].
  exact (conj H Hle).
Defined.

(** [no_page_results] after a fetch and an analysis that both fail. *)
Lemma no_page_results_witness :
  soup (obj toy_soup
          (session toy_soup cjk_isalnum ascii_lower (Some word_segmenter)
             (option str) toy_bs4 toy_net [CallFetch; CallAnalyze]
             (fresh toy_soup (utf8 "https://nowhere.test")))) = None
  /\ count_images toy_soup (option str) toy_bs4
       (obj toy_soup
          (session toy_soup cjk_isalnum ascii_lower (Some word_segmenter)
             (option str) toy_bs4 toy_net [CallFetch; CallAnalyze]
             (fresh toy_soup (utf8 "https://nowhere.test"))))
     = (Returns O,
        obj toy_soup
          (session toy_soup cjk_isalnum ascii_lower (Some word_segmenter)
             (option str) toy_bs4 toy_net [CallFetch; CallAnalyze]
             (fresh toy_soup (utf8 "https://nowhere.test")))).
Proof.
  split; [reflexivity|].
  apply (no_page_results toy_soup cjk_isalnum ascii_lower (Some word_segmenter)
           (option str) toy_bs4 toy_net (utf8 "https://nowhere.test")
           [CallFetch; CallAnalyze]).
  reflexivity.
Defined.

(** [analyze_fetch_failed] on a URL the network refuses. *)
Lemma analyze_fetch_failed_witness :
  http_get toy_net (url (obj toy_soup (fresh toy_soup (utf8 "https://nowhere.test"))))
  = Failed (utf8 "connection refused")
  /\ analyze toy_soup cjk_isalnum ascii_lower (Some word_segmenter)
       (option str) toy_bs4 toy_net (fresh toy_soup (utf8 "https://nowhere.test"))
     = (Returns tt,
        {| obj := init (utf8 "https://nowhere.test");
           stdout := [ 10 :: utf8 "🔍 正在分析: https://nowhere.test" ++ [10];
                       utf8 "❌ 無法抓取網頁: connection refused" ] |}).
Proof.
  split; [reflexivity|].
  apply (analyze_fetch_failed toy_soup cjk_isalnum ascii_lower (Some word_segmenter)
           (option str) toy_bs4 toy_net (fresh toy_soup (utf8 "https://nowhere.test"))
           (utf8 "connection refused")).
  reflexivity.
Defined.

